(** * VoiceAgent: the voice-session component of Cloud Companion

    A shallow embedding of [src/components/VoiceAgent.tsx].  The component
    is a React function component: six [useState] cells, one [useRef] cell
    holding the Millis SDK client, one mount effect and a handful of event
    handlers.  Each handler is embedded as a computation in a small monad
    that threads the component's hook state, records the calls made to the
    outside world (SDK client, media devices, DOM event) and can complete
    by throwing, as a JavaScript function can.

    The SDK and the browser are not part of the component; whatever they
    answer (does [getUserMedia] resolve, does an SDK call throw) is an
    argument of the handler that asks.  An [await] is run to completion
    within the handler that contains it: no other handler is interleaved
    between the call of [getUserMedia] and the code that follows it.
    [console.log] and [console.error] calls, styling and the smooth-scroll
    effect are left out. *)

From stdpp Require Import base option list strings pretty.
From Stdlib Require Import NArith.

Local Open Scope N_scope.

(** ** JavaScript primitives used by the component *)

Module Js.

(** A JavaScript string is a sequence of UTF-16 code units. *)
Definition code_unit : Type := N.
Definition jsstring : Type := list code_unit.

(** A string literal of the source (all of them are ASCII). *)
Definition lit (s : string) : jsstring :=
  Ascii.N_of_ascii <$> String.list_ascii_of_string s.

(** [ToBoolean] on a string: the empty string is the only falsy one. *)
Definition truthy (s : jsstring) : bool :=
  match s with
  | [] => false
  | _ :: _ => true
  end.

(** [a || b] on strings. *)
Definition or_else (a b : jsstring) : jsstring :=
  if truthy a then a else b.

(** [a || b] where [a] may be [undefined]. *)
Definition or_default (a : option jsstring) (b : jsstring) : jsstring :=
  match a with
  | Some s => or_else s b
  | None => b
  end.

(** ECMAScript [WhiteSpace] and [LineTerminator] code points, the set
    stripped by [String.prototype.trim]. *)
Definition isWhiteSpace (c : code_unit) : bool :=
  (c =? 0x0009) || (c =? 0x000A) || (c =? 0x000B) || (c =? 0x000C)
  || (c =? 0x000D) || (c =? 0x0020) || (c =? 0x00A0) || (c =? 0x1680)
  || ((0x2000 <=? c) && (c <=? 0x200A))
  || (c =? 0x2028) || (c =? 0x2029) || (c =? 0x202F) || (c =? 0x205F)
  || (c =? 0x3000) || (c =? 0xFEFF).

Fixpoint trimStart (s : jsstring) : jsstring :=
  match s with
  | [] => []
  | c :: s' => if isWhiteSpace c then trimStart s' else s
  end.

Definition trimEnd (s : jsstring) : jsstring :=
  reverse (trimStart (reverse s)).

(** [s.trim()] *)
Definition trim (s : jsstring) : jsstring := trimEnd (trimStart s).

(** [Number::toString] on a non-negative integer: its decimal digits. *)
Definition toString (n : N) : jsstring := lit (pretty n).

(** [s.includes(t)] as a proposition. *)
Definition includes (s t : jsstring) : Prop :=
  ∃ before after, s = before ++ t ++ after.

End Js.

Import Js.

(** ** Data model *)

Module VoiceAgent.

(** [{type: 'user' | 'agent', text: string}] *)
Inductive Role : Type := user | agent.

Record Message : Type := { type : Role; text : jsstring }.

(** The object returned by [Millis.createClient]; the component only keeps
    the handle, so the model keeps the options it was created with. *)
Record MillisClient : Type := { publicKey : jsstring; endPoint : jsstring }.

(** [process.env], restricted to the variables the component reads. *)
Record ProcessEnv : Type := {
  NEXT_PUBLIC_MILLIS_PUBLIC_KEY : option jsstring;
  NEXT_PUBLIC_MILLIS_API_KEY : option jsstring;
  NEXT_PUBLIC_MILLIS_AGENT_ID : option jsstring;
  NEXT_PUBLIC_USE_OPENAI_PROXY : option jsstring
}.

(** The argument of [msClient.start]. *)
Record StartConfig : Type := {
  agent_id : option jsstring;
  apiKey : option jsstring;
  useOpenAIProxy : bool;
  include_metadata_in_prompt : bool
}.

(** The hook state of one mounted component instance.  [effectCleanup]
    is the cleanup function React keeps for the mount effect; the only
    thing that distinguishes two such closures is the value of
    [isListening] they captured. *)
Record State : Type := {
  inputText : jsstring;
  isListening : bool;
  transcript : jsstring;
  messages : list Message;
  msClientRef : option MillisClient;
  permissionGranted : bool;
  connectionError : option jsstring;
  effectCleanup : option bool
}.

(** [useState] initial values and [useRef(null)]. *)
Definition initialState : State :=
  {| inputText := [];
     isListening := false;
     transcript := [];
     messages := [];
     msClientRef := None;
     permissionGranted := false;
     connectionError := None;
     effectCleanup := None |}.

(** Calls that leave the component. *)
Inductive Effect : Type :=
| CreateClient (c : MillisClient)
| ClientOn (name : string)
| ClientStart (cfg : StartConfig)
| ClientStop
| GetUserMedia
| TrackStop (i : nat)
| PreventDefault.

(** What [navigator.mediaDevices.getUserMedia({audio: true})] settles to:
    a stream with some number of tracks, or a rejection. *)
Inductive MediaResult : Type :=
| Resolved (tracks : nat)
| Rejected.

(** How a call into the SDK completes. *)
Inductive SdkResult : Type := Returns | Throws.

(** [payload: { is_final?: boolean }] *)
Record Payload : Type := { is_final : option bool }.

Definition payload_final (p : Payload) : bool :=
  match is_final p with
  | Some b => b
  | None => false
  end.

(** [CloseEvent]: [code] is an unsigned short, [reason] a string. *)
Record CloseEvent : Type := { code : N; reason : jsstring }.

(** ** The handler monad *)

Inductive Completion (A : Type) : Type :=
| Normal (a : A)
| Thrown.
Global Arguments Normal {A} a.
Global Arguments Thrown {A}.

Record Outcome (A : Type) : Type := {
  completion : Completion A;
  final : State;
  effects : list Effect
}.
Global Arguments completion {A} _.
Global Arguments final {A} _.
Global Arguments effects {A} _.

Definition M (A : Type) : Type := State → Outcome A.

Global Instance M_ret : MRet M := λ A a st,
  {| completion := Normal a; final := st; effects := [] |}.

Global Instance M_bind : MBind M := λ A B k m st,
  let r := m st in
  match completion r with
  | Normal a =>
      let r' := k a (final r) in
      {| completion := completion r';
         final := final r';
         effects := effects r ++ effects r' |}
  | Thrown =>
      {| completion := Thrown; final := final r; effects := effects r |}
  end.

Definition throw {A} : M A := λ st,
  {| completion := Thrown; final := st; effects := [] |}.

(** [try { body } catch (err) { handler }] *)
Definition try_catch (body handler : M unit) : M unit := λ st,
  let r := body st in
  match completion r with
  | Normal _ => r
  | Thrown =>
      let r' := handler (final r) in
      {| completion := completion r';
         final := final r';
         effects := effects r ++ effects r' |}
  end.

Definition emit (e : Effect) : M unit := λ st,
  {| completion := Normal (); final := st; effects := [e] |}.

(** Reading a state variable, a ref, or a [const] of the current render. *)
Definition read {A} (f : State → A) : M A := λ st,
  {| completion := Normal (f st); final := st; effects := [] |}.

Definition update (f : State → State) : M unit := λ st,
  {| completion := Normal (); final := f st; effects := [] |}.

(** ** Setters *)

Definition setInputText (v : jsstring) : M unit :=
  update (λ st,
    {| inputText := v; isListening := isListening st;
       transcript := transcript st; messages := messages st;
       msClientRef := msClientRef st;
       permissionGranted := permissionGranted st;
       connectionError := connectionError st;
       effectCleanup := effectCleanup st |}).

Definition setIsListening (v : bool) : M unit :=
  update (λ st,
    {| inputText := inputText st; isListening := v;
       transcript := transcript st; messages := messages st;
       msClientRef := msClientRef st;
       permissionGranted := permissionGranted st;
       connectionError := connectionError st;
       effectCleanup := effectCleanup st |}).

Definition setTranscript (v : jsstring) : M unit :=
  update (λ st,
    {| inputText := inputText st; isListening := isListening st;
       transcript := v; messages := messages st;
       msClientRef := msClientRef st;
       permissionGranted := permissionGranted st;
       connectionError := connectionError st;
       effectCleanup := effectCleanup st |}).

(** [setMessages(prev => f(prev))] *)
Definition setMessages (f : list Message → list Message) : M unit :=
  update (λ st,
    {| inputText := inputText st; isListening := isListening st;
       transcript := transcript st; messages := f (messages st);
       msClientRef := msClientRef st;
       permissionGranted := permissionGranted st;
       connectionError := connectionError st;
       effectCleanup := effectCleanup st |}).

(** [msClientRef.current = c] *)
Definition setMsClientRef (c : MillisClient) : M unit :=
  update (λ st,
    {| inputText := inputText st; isListening := isListening st;
       transcript := transcript st; messages := messages st;
       msClientRef := Some c;
       permissionGranted := permissionGranted st;
       connectionError := connectionError st;
       effectCleanup := effectCleanup st |}).

Definition setPermissionGranted (v : bool) : M unit :=
  update (λ st,
    {| inputText := inputText st; isListening := isListening st;
       transcript := transcript st; messages := messages st;
       msClientRef := msClientRef st;
       permissionGranted := v;
       connectionError := connectionError st;
       effectCleanup := effectCleanup st |}).

Definition setConnectionError (v : option jsstring) : M unit :=
  update (λ st,
    {| inputText := inputText st; isListening := isListening st;
       transcript := transcript st; messages := messages st;
       msClientRef := msClientRef st;
       permissionGranted := permissionGranted st;
       connectionError := v;
       effectCleanup := effectCleanup st |}).

(** React storing, or dropping, the cleanup returned by the mount effect. *)
Definition setEffectCleanup (v : option bool) : M unit :=
  update (λ st,
    {| inputText := inputText st; isListening := isListening st;
       transcript := transcript st; messages := messages st;
       msClientRef := msClientRef st;
       permissionGranted := permissionGranted st;
       connectionError := connectionError st;
       effectCleanup := v |}).

(** ** Calls into the SDK *)

Definition client_start (sdk : SdkResult) (cfg : StartConfig) : M unit :=
  emit (ClientStart cfg) ;;
  match sdk with
  | Returns => mret ()
  | Throws => throw
  end.

Definition client_stop (sdk : SdkResult) : M unit :=
  emit ClientStop ;;
  match sdk with
  | Returns => mret ()
  | Throws => throw
  end.

(** [xs.forEach(f)] *)
Fixpoint forEach {A} (f : A → M unit) (xs : list A) : M unit :=
  match xs with
  | [] => mret ()
  | x :: xs' => f x ;; forEach f xs'
  end.

(** ** The component's functions *)

Definition microphone_advisory : jsstring :=
  lit "Microphone access is required for the voice agent to work.".

(** [checkMicrophonePermission]: the [try] branch runs when the promise of
    [getUserMedia] resolves, the [catch] branch when it rejects. *)
Definition checkMicrophonePermission (media : MediaResult) : M unit :=
  emit GetUserMedia ;;
  match media with
  | Resolved tracks =>
      setPermissionGranted true ;;
      forEach (λ track, emit (TrackStop track)) (seq 0 tracks)
  | Rejected =>
      setConnectionError (Some microphone_advisory) ;;
      setPermissionGranted false
  end.

Definition event_names : list string :=
  ["onopen"; "onready"; "onaudio"; "onresponsetext"; "ontranscript";
   "useraudioready"; "onsessionended"; "onclose"; "onerror"]%string.

(** [setupEventListeners]: registers one listener per event name; the
    listeners themselves are the [on_*] functions below. *)
Definition setupEventListeners : M unit :=
  ref ← read msClientRef ;
  match ref with
  | None => mret ()
  | Some _ => forEach (λ name, emit (ClientOn name)) event_names
  end.

Definition on_onopen : M unit := setConnectionError None.

Definition on_onready : M unit := mret ().

Definition on_onaudio : M unit := mret ().

Definition on_onresponsetext (text : jsstring) (payload : Payload) : M unit :=
  if payload_final payload
  then setMessages (λ prev, prev ++ [{| type := agent; text := text |}])
  else mret ().

Definition on_ontranscript (text : jsstring) (payload : Payload) : M unit :=
  setTranscript text ;;
  if payload_final payload && truthy text
  then setMessages (λ prev, prev ++ [{| type := user; text := text |}])
  else mret ().

Definition on_useraudioready : M unit := mret ().

Definition on_onsessionended : M unit := setIsListening false.

Definition close_message (event : CloseEvent) : jsstring :=
  lit "Connection closed unexpectedly (code: " ++ toString (code event)
  ++ lit "). Reason: " ++ or_else (reason event) (lit "Unknown").

Definition on_onclose (event : CloseEvent) : M unit :=
  setIsListening false ;;
  if negb (code event =? 1000)
  then setConnectionError (Some (close_message event))
  else mret ().

Definition on_onerror : M unit :=
  setIsListening false ;;
  setConnectionError
    (Some (lit "An error occurred with the voice connection. Please try again.")).

Definition default_public_key : jsstring :=
  lit "F0DzXOcj6UDsfULztsNQuS4HBXDJntNg".

Definition millis_endpoint : jsstring :=
  lit "wss://api-eu-west.millis.ai/millis".

(** The first [useEffect], dependency list [[]]: React runs it once, after
    the first render.  The cleanup it returns closes over the
    [isListening] of the render that created the effect. *)
Definition mountEffect (env : ProcessEnv) (media : MediaResult) : M unit :=
  isListening ← read isListening ;
  ref ← read msClientRef ;
  match ref with
  | None =>
      let publicKey :=
        or_default (NEXT_PUBLIC_MILLIS_PUBLIC_KEY env) default_public_key in
      let client := {| publicKey := publicKey; endPoint := millis_endpoint |} in
      emit (CreateClient client) ;;
      setMsClientRef client ;;
      setupEventListeners
  | Some _ => mret ()
  end ;;
  checkMicrophonePermission media ;;
  setEffectCleanup (Some isListening).

(** The body of that cleanup, [isListening] being the captured value. *)
Definition mountCleanup (isListening : bool) (sdk : SdkResult) : M unit :=
  ref ← read msClientRef ;
  if bool_decide (is_Some ref) && isListening
  then client_stop sdk
  else mret ().

(** Unmounting: React calls the stored cleanup, once. *)
Definition unmount (sdk : SdkResult) : M unit :=
  cleanup ← read effectCleanup ;
  match cleanup with
  | None => mret ()
  | Some isListening => setEffectCleanup None ;; mountCleanup isListening sdk
  end.

Definition start_config (env : ProcessEnv) : StartConfig :=
  {| agent_id := NEXT_PUBLIC_MILLIS_AGENT_ID env;
     apiKey := NEXT_PUBLIC_MILLIS_API_KEY env;
     useOpenAIProxy :=
       bool_decide (NEXT_PUBLIC_USE_OPENAI_PROXY env = Some (lit "true"));
     include_metadata_in_prompt := true |}.

(** [startVoiceAgent] from the client check on (lines 124-150). *)
Definition startSession (env : ProcessEnv) (sdk : SdkResult) : M unit :=
  ref ← read msClientRef ;
  match ref with
  | None =>
      setConnectionError
        (Some (lit "Client initialization failed. Please refresh the page."))
  | Some _ =>
      setConnectionError None ;;
      try_catch
        (client_start sdk (start_config env) ;;
         setIsListening true)
        (setConnectionError
           (Some (lit "Failed to start the voice agent. Please try again.")))
  end.

(** [startVoiceAgent].  [permissionGranted] is a [const] of the render
    whose closure is running: it is read once, and the test after the
    [await] sees the same value. *)
Definition startVoiceAgent (env : ProcessEnv) (media : MediaResult)
    (sdk : SdkResult) : M unit :=
  permissionGranted ← read permissionGranted ;
  if negb permissionGranted then
    checkMicrophonePermission media ;;
    if negb permissionGranted then mret () else startSession env sdk
  else startSession env sdk.

Definition stopVoiceAgent (sdk : SdkResult) : M unit :=
  ref ← read msClientRef ;
  match ref with
  | Some _ => client_stop sdk
  | None => mret ()
  end ;;
  setIsListening false.

Definition handleSubmit : M unit :=
  emit PreventDefault ;;
  inputText ← read inputText ;
  if truthy (trim inputText) then
    setMessages (λ prev, prev ++ [{| type := user; text := inputText |}]) ;;
    setInputText []
  else mret ().

(** ** What the render shows *)

(** [{transcript && isListening && (...)}] *)
Definition showsPartialTranscript (st : State) : bool :=
  truthy (transcript st) && isListening st.

(** [onClick={isListening ? stopVoiceAgent : startVoiceAgent}] *)
Definition button_onClick (env : ProcessEnv) (media : MediaResult)
    (sdk : SdkResult) : M unit :=
  isListening ← read isListening ;
  if (isListening : bool)
  then stopVoiceAgent sdk
  else startVoiceAgent env media sdk.

(** [disabled={!inputText.trim()}] *)
Definition sendDisabled (st : State) : bool :=
  negb (truthy (trim (inputText st))).

(** ** The component as a machine *)

(** Events the SDK client fires at its listeners. *)
Inductive SdkEvent : Type :=
| Open
| Ready
| Audio
| ResponseText (text : jsstring) (payload : Payload)
| Transcript (text : jsstring) (payload : Payload)
| UserAudioReady
| SessionEnded
| Close (event : CloseEvent)
| Error.

Definition listener (ev : SdkEvent) : M unit :=
  match ev with
  | Open => on_onopen
  | Ready => on_onready
  | Audio => on_onaudio
  | ResponseText text payload => on_onresponsetext text payload
  | Transcript text payload => on_ontranscript text payload
  | UserAudioReady => on_useraudioready
  | SessionEnded => on_onsessionended
  | Close event => on_onclose event
  | Error => on_onerror
  end.

(** Everything that can happen to a component instance. *)
Inductive Action : Type :=
| Mount (env : ProcessEnv) (media : MediaResult)
| Unmount (sdk : SdkResult)
| Start (env : ProcessEnv) (media : MediaResult) (sdk : SdkResult)
| Stop (sdk : SdkResult)
| ClickButton (env : ProcessEnv) (media : MediaResult) (sdk : SdkResult)
| ChangeInput (value : jsstring)
| Submit
| Fire (ev : SdkEvent).

Definition step (a : Action) : M unit :=
  match a with
  | Mount env media => mountEffect env media
  | Unmount sdk => unmount sdk
  | Start env media sdk => startVoiceAgent env media sdk
  | Stop sdk => stopVoiceAgent sdk
  | ClickButton env media sdk => button_onClick env media sdk
  | ChangeInput value => setInputText value
  | Submit => handleSubmit
  | Fire ev => listener ev
  end.

(** A run of actions.  An action that throws does not stop the page: the
    exception is reported and the next action runs on the state left
    behind. *)
Fixpoint run (acts : list Action) (st : State) : State * list Effect :=
  match acts with
  | [] => (st, [])
  | a :: acts' =>
      let r := step a st in
      let '(st', fx) := run acts' (final r) in
      (st', effects r ++ fx)
  end.

(** The Message list after delivering a list of events to one listener. *)
Fixpoint deliver (evs : list SdkEvent) (st : State) : State :=
  match evs with
  | [] => st
  | ev :: evs' => deliver evs' (final (listener ev st))
  end.

(** Does a list of effects contain a call of the client's [start]/[stop],
    or any call on the client at all? *)
Definition is_client_start (e : Effect) : bool :=
  match e with ClientStart _ => true | _ => false end.

Definition is_client_stop (e : Effect) : bool :=
  match e with ClientStop => true | _ => false end.

Definition is_client_call (e : Effect) : bool :=
  match e with
  | ClientOn _ | ClientStart _ | ClientStop => true
  | _ => false
  end.

Definition invokes (p : Effect → bool) (fx : list Effect) : bool :=
  existsb p fx.

End VoiceAgent.

Import VoiceAgent.

(** ** Sample inputs *)

(** A page built without any of the environment variables. *)
Definition bare_env : ProcessEnv :=
  {| NEXT_PUBLIC_MILLIS_PUBLIC_KEY := None;
     NEXT_PUBLIC_MILLIS_API_KEY := None;
     NEXT_PUBLIC_MILLIS_AGENT_ID := None;
     NEXT_PUBLIC_USE_OPENAI_PROXY := None |}.

(** The page after mounting with the microphone allowed and one click on
    the start button: a session is running. *)
Definition listening_page : State :=
  (run [Mount bare_env (Resolved 1); Start bare_env (Resolved 1) Returns]
       initialState).1.

(** The same page in the middle of an utterance. *)
Definition mid_utterance : State :=
  deliver [Transcript (lit "hello wor") {| is_final := Some false |}]
          listening_page.

(** The user entries a list of transcript events contributes: one per event
    that is final and has text, in the order of the events. *)
Definition is_final_utterance (ev : jsstring * Payload) : bool :=
  payload_final ev.2 && truthy ev.1.

Definition user_message (ev : jsstring * Payload) : Message :=
  {| type := user; text := ev.1 |}.

Definition transcript_event (ev : jsstring * Payload) : SdkEvent :=
  Transcript ev.1 ev.2.

(** The media result carried by an action that probes the microphone. *)
Definition probe_of (a : Action) : option MediaResult :=
  match a with
  | Mount _ media | Start _ media _ | ClickButton _ media _ => Some media
  | _ => None
  end.

Definition probe_rejected (a : Action) : bool :=
  match probe_of a with
  | Some (Resolved _) => false
  | _ => true
  end.

(** Actions between mounting and unmounting. *)
Definition in_lifetime (a : Action) : bool :=
  match a with
  | Mount _ _ | Unmount _ => false
  | _ => true
  end.

(** ** Relations between a state and a later state *)

(** The Message list only grew at its end. *)
Definition messages_extended : relation State :=
  λ st st', messages st `prefix_of` messages st'.

(** The stored cleanup closure is the same. *)
Definition same_cleanup : relation State :=
  λ st st', effectCleanup st' = effectCleanup st.

(** Permission was not gained. *)
Definition stays_denied : relation State :=
  λ st st', permissionGranted st = false → permissionGranted st' = false.

(** A computation relates every state it starts in to the state it leaves. *)
Definition preserves (R : relation State) {A} (m : M A) : Prop :=
  ∀ st, R st (final (m st)).

(** A computation that never completes by throwing. *)
Definition returns {A} (m : M A) : Prop :=
  ∀ st, ∃ a, completion (m st) = Normal a.

(** ** More of the render, and ways to sort effects, events and actions *)

(** [{connectionError && (<div>...</div>)}] *)
Definition showsErrorBanner (st : State) : bool :=
  match connectionError st with
  | Some message => truthy message
  | None => false
  end.

Definition is_get_user_media (e : Effect) : bool :=
  match e with GetUserMedia => true | _ => false end.

(** How many of the effects satisfy [p]. *)
Definition count (p : Effect → bool) (fx : list Effect) : nat :=
  length (List.filter p fx).

(** The calls of one permission probe: the request, then one [stop] per
    track of the stream that came back. *)
Definition probe_calls (media : MediaResult) : list Effect :=
  GetUserMedia ::
  match media with
  | Resolved tracks => TrackStop <$> seq 0 tracks
  | Rejected => []
  end.

(** The client the mount effect creates under a given environment. *)
Definition mounted_client (env : ProcessEnv) : MillisClient :=
  {| publicKey :=
       or_default (NEXT_PUBLIC_MILLIS_PUBLIC_KEY env) default_public_key;
     endPoint := millis_endpoint |}.

(** The SDK events whose listener resets SessionState. *)
Definition ends_session (ev : SdkEvent) : bool :=
  match ev with
  | SessionEnded | Close _ | Error => true
  | _ => false
  end.

(** The actions that run [startVoiceAgent]. *)
Definition is_start_action (a : Action) : bool :=
  match a with
  | Start _ _ _ | ClickButton _ _ _ => true
  | _ => false
  end.

(** The calls that set the client up: its creation and the registration
    of a listener. *)
Definition is_client_setup (e : Effect) : bool :=
  match e with
  | CreateClient _ | ClientOn _ => true
  | _ => false
  end.

(** The actions after which the component instance is still mounted.  A
    mount that follows an unmount is a new instance, with fresh hooks. *)
Definition stays_mounted (a : Action) : bool :=
  match a with
  | Unmount _ => false
  | _ => true
  end.

(** [handleSubmit] as created by one render: [inputText] is a [const] of
    that render, and every call of this handler sees the same value. *)
Definition handleSubmit_of_render (inputText : jsstring) : M unit :=
  emit PreventDefault ;;
  if truthy (trim inputText) then
    setMessages (λ prev, prev ++ [{| type := user; text := inputText |}]) ;;
    setInputText []
  else mret ().

(** A property of the state that holds afterwards if it held before. *)
Definition keeps (P : State → Prop) : relation State :=
  λ st st', P st → P st'.

(** A computation all of whose calls satisfy [q]. *)
Definition emits_only (q : Effect → bool) {A} (m : M A) : Prop :=
  ∀ st, forallb q (effects (m st)) = true.

(** A ConnectionError that is set is a non-empty string. *)
Definition error_is_displayable (st : State) : Prop :=
  ∀ message, connectionError st = Some message → message ≠ [].

(** SessionState is listening only when a client handle exists. *)
Definition listening_has_client (st : State) : Prop :=
  isListening st = true → is_Some (msClientRef st).

(** The page right after mounting, with the microphone allowed and with
    the microphone refused. *)
Definition mounted_page : State :=
  (run [Mount bare_env (Resolved 1)] initialState).1.

Definition refused_page : State :=
  (run [Mount bare_env Rejected] initialState).1.

(** ** Proof support *)

Ltac unfold_handlers :=
  unfold step, listener, button_onClick, handleSubmit, stopVoiceAgent,
    startVoiceAgent, startSession, unmount, mountCleanup, mountEffect,
    setupEventListeners, checkMicrophonePermission,
    on_onopen, on_onready, on_onaudio, on_onresponsetext, on_ontranscript,
    on_useraudioready, on_onsessionended, on_onclose, on_onerror,
    client_start, client_stop in *.

Ltac unfold_monad :=
  unfold setInputText, setIsListening, setTranscript, setMessages,
    setMsClientRef, setPermissionGranted, setConnectionError,
    setEffectCleanup, try_catch, throw, emit, read, update,
    mbind, mret, M_bind, M_ret in *.

Ltac crunch := unfold_handlers; unfold_monad; cbn.

Lemma truthy_spec (s : jsstring) : truthy s = true ↔ s ≠ [].
Proof. destruct s; cbn; split; congruence. Qed.

Lemma pretty_N_go_nonempty (x : N) (s : string) :
  s ≠ ""%string → pretty_N_go x s ≠ ""%string.
Proof.
  revert s. induction (N.lt_wf_0 x) as [x _ IH]; intros s Hs.
  destruct (decide (0 < x)) as [Hpos|Hzero].
  - rewrite pretty_N_go_step by exact Hpos.
    apply IH; [apply N.div_lt; lia | discriminate].
  - assert (x = 0) as -> by lia. by rewrite pretty_N_go_0.
Qed.

(** The decimal rendering of a number is never the empty string. *)
Lemma toString_nonempty (n : N) : toString n ≠ [].
Proof.
  unfold toString, pretty, pretty_N.
  destruct (decide (n = 0)) as [->|Hn]; [discriminate|].
  assert (0 < n) as Hpos by lia.
  rewrite pretty_N_go_step by exact Hpos.
  pose proof (pretty_N_go_nonempty (n `div` 10)
                (String (pretty_N_char (n `mod` 10)) "")) as Hne.
  destruct (pretty_N_go _ _); [by destruct Hne | discriminate].
Qed.

Example toString_1006 : toString 1006 = lit "1006".
Proof. reflexivity. Qed.

Example trim_strips_both_ends :
  trim ([0x0009; 0x00A0] ++ lit " a b " ++ [0x000A; 0x3000]) = lit "a b".
Proof. reflexivity. Qed.

Example trim_blank : trim (lit "   ") = [].
Proof. reflexivity. Qed.

Lemma forEach_final {A} (f : A → M unit) (xs : list A) (st : State) :
  (∀ x st', final (f x st') = st') → final (forEach f xs st) = st.
Proof.
  intros Hf. revert st.
  induction xs as [|x xs IH]; intros st; [reflexivity|].
  cbn. unfold mbind, M_bind.
  destruct (completion (f x st)) eqn:Hc; cbn.
  - rewrite Hf. apply IH.
  - apply Hf.
Qed.

Lemma forEach_emit_final (g : nat → Effect) (xs : list nat) (st : State) :
  final (forEach (λ x, emit (g x)) xs st) = st.
Proof. apply forEach_final. reflexivity. Qed.

Lemma forEach_emit_completion {A} (g : A → Effect) (xs : list A) (st : State) :
  completion (forEach (λ x, emit (g x)) xs st) = Normal ().
Proof.
  revert st. induction xs as [|x xs IH]; intros st; [reflexivity|].
  cbn. unfold mbind, M_bind. cbn. apply IH.
Qed.

Lemma forEach_emit_effects {A} (g : A → Effect) (xs : list A) (st : State) :
  effects (forEach (λ x, emit (g x)) xs st) = g <$> xs.
Proof.
  revert st. induction xs as [|x xs IH]; intros st; [reflexivity|].
  cbn. unfold mbind, M_bind. cbn. f_equal. apply IH.
Qed.

Lemma track_stops_not_start (xs : list nat) :
  invokes is_client_start (TrackStop <$> xs) = false.
Proof. induction xs; [reflexivity | assumption]. Qed.

(** What the permission probe does, whatever the state it runs in. *)
Lemma checkMicrophonePermission_completion media st :
  completion (checkMicrophonePermission media st) = Normal ().
Proof.
  destruct media as [tracks|]; crunch; [|reflexivity].
  apply (forEach_emit_completion TrackStop).
Qed.

Lemma checkMicrophonePermission_effects media st :
  invokes is_client_start (effects (checkMicrophonePermission media st)) = false.
Proof.
  destruct media as [tracks|]; crunch; [|reflexivity].
  rewrite (forEach_emit_effects TrackStop). apply track_stops_not_start.
Qed.

Lemma checkMicrophonePermission_final media st :
  final (checkMicrophonePermission media st) =
  match media with
  | Resolved _ =>
      {| inputText := inputText st; isListening := isListening st;
         transcript := transcript st; messages := messages st;
         msClientRef := msClientRef st; permissionGranted := true;
         connectionError := connectionError st;
         effectCleanup := effectCleanup st |}
  | Rejected =>
      {| inputText := inputText st; isListening := isListening st;
         transcript := transcript st; messages := messages st;
         msClientRef := msClientRef st; permissionGranted := false;
         connectionError := Some microphone_advisory;
         effectCleanup := effectCleanup st |}
  end.
Proof.
  destruct media as [tracks|]; crunch; [|reflexivity].
  apply (forEach_emit_final TrackStop).
Qed.

(** ** The event bridge *)

Section EventBridge.

Implicit Types (st : State) (text : jsstring) (payload : Payload).

(** One transcript event: the partial transcript is overwritten, and a
    user entry is appended exactly when the event is final and has text. *)
Lemma on_ontranscript_outcome text payload st :
  on_ontranscript text payload st =
  {| completion := Normal ();
     final :=
       {| inputText := inputText st; isListening := isListening st;
          transcript := text;
          messages :=
            if payload_final payload && truthy text
            then messages st ++ [{| type := user; text := text |}]
            else messages st;
          msClientRef := msClientRef st;
          permissionGranted := permissionGranted st;
          connectionError := connectionError st;
          effectCleanup := effectCleanup st |};
     effects := [] |}.
Proof.
  crunch. destruct (payload_final payload && truthy text); reflexivity.
Qed.

Lemma deliver_transcripts_messages (evs : list (jsstring * Payload)) st :
  messages (deliver (transcript_event <$> evs) st) =
  messages st ++ (user_message <$> List.filter is_final_utterance evs).
Proof.
  revert st. induction evs as [|[text payload] evs IH]; intros st.
  - cbn. by rewrite app_nil_r.
  - cbn [fmap list_fmap deliver transcript_event listener fst snd].
    rewrite IH, on_ontranscript_outcome. cbn.
    unfold is_final_utterance at 2. cbn [fst snd].
    destruct (payload_final payload && truthy text); [|reflexivity].
    by rewrite <- app_assoc.
Qed.

(** C1.  Delivering any sequence of transcript events to the
    [ontranscript] listener extends the Message list by one user entry
    for each event that is final and has non-empty text, in the order of
    arrival, and by nothing else; a single event that is not final leaves
    every state variable as it was except the partial transcript, which
    becomes the event's text. *)
Theorem transcript_events_append_in_order
    (evs : list (jsstring * Payload)) st :
  messages (deliver (transcript_event <$> evs) st) =
    messages st ++ (user_message <$> List.filter is_final_utterance evs)
  ∧ ∀ text payload st',
      payload_final payload = false →
      on_ontranscript text payload st' =
      {| completion := Normal ();
         final :=
           {| inputText := inputText st'; isListening := isListening st';
              transcript := text;
              messages := messages st';
              msClientRef := msClientRef st';
              permissionGranted := permissionGranted st';
              connectionError := connectionError st';
              effectCleanup := effectCleanup st' |};
         effects := [] |}.
Proof.
  split; [apply deliver_transcripts_messages|].
  intros text payload st' Hpartial.
  rewrite on_ontranscript_outcome, Hpartial. reflexivity.
Qed.

Lemma transcript_events_append_in_order_witness :
  messages
    (deliver
       (transcript_event <$>
          [(lit "hel", {| is_final := Some false |});
           (lit "hello", {| is_final := Some true |});
           ([], {| is_final := Some true |});
           (lit "bye", {| is_final := None |});
           (lit "bye now", {| is_final := Some true |})])
       initialState)
  = [{| type := user; text := lit "hello" |};
     {| type := user; text := lit "bye now" |}]
  ∧ payload_final {| is_final := None |} = false
  ∧ transcript (final (on_ontranscript (lit "bye") {| is_final := None |}
                         mid_utterance)) = lit "bye"
  ∧ messages (final (on_ontranscript (lit "bye") {| is_final := None |}
                       mid_utterance)) = messages mid_utterance.
Proof.
  pose proof
    (transcript_events_append_in_order
       [(lit "hel", {| is_final := Some false |});
        (lit "hello", {| is_final := Some true |});
        ([], {| is_final := Some true |});
        (lit "bye", {| is_final := None |});
        (lit "bye now", {| is_final := Some true |})]
       initialState) as [Hseq Hone].
  split; [rewrite Hseq; reflexivity|].
  split; [reflexivity|].
  rewrite (Hone (lit "bye") {| is_final := None |} mid_utterance eq_refl).
  split; reflexivity.
Defined.

(** C2.  A response-text event that is final appends one agent Message
    carrying the event's text and changes nothing else; one that is not
    final changes nothing at all. *)
Theorem response_text_appends_agent_when_final text payload st :
  on_onresponsetext text payload st =
  {| completion := Normal ();
     final :=
       if payload_final payload
       then {| inputText := inputText st; isListening := isListening st;
               transcript := transcript st;
               messages := messages st ++ [{| type := agent; text := text |}];
               msClientRef := msClientRef st;
               permissionGranted := permissionGranted st;
               connectionError := connectionError st;
               effectCleanup := effectCleanup st |}
       else st;
     effects := [] |}.
Proof.
  crunch. destruct (payload_final payload); reflexivity.
Qed.

Lemma close_message_includes_code (event : CloseEvent) :
  includes (close_message event) (toString (code event)).
Proof.
  exists (lit "Connection closed unexpectedly (code: "),
    (lit "). Reason: " ++ or_else (reason event) (lit "Unknown")).
  reflexivity.
Qed.

Lemma close_message_nonempty (event : CloseEvent) : close_message event ≠ [].
Proof. unfold close_message. cbn. discriminate. Qed.

(** C3.  A close event always resets the session to idle.  With code 1000
    the handler does not touch the connection error (so it stays unset
    when it was unset); with any other code the connection error becomes
    a non-empty string in which the decimal code occurs. *)
Theorem close_sets_idle_and_reports_abnormal_code (event : CloseEvent) st :
  let st' := final (on_onclose event st) in
  isListening st' = false
  ∧ if code event =? 1000
    then connectionError st' = connectionError st
    else ∃ msg, connectionError st' = Some msg
                ∧ msg ≠ []
                ∧ includes msg (toString (code event)).
Proof.
  crunch. destruct (code event =? 1000); cbn; split; try reflexivity.
  exists (close_message event).
  split; [reflexivity|].
  split; [apply close_message_nonempty | apply close_message_includes_code].
Qed.

End EventBridge.

(** ** Preservation, handler by handler *)

Section Preservation.

Context (R : relation State) `{!PreOrder R}.

Lemma preserves_ret {A} (a : A) : preserves R (mret a).
Proof. intros st. reflexivity. Qed.

Lemma preserves_throw {A} : preserves R (@throw A).
Proof. intros st. reflexivity. Qed.

Lemma preserves_emit (e : Effect) : preserves R (emit e).
Proof. intros st. reflexivity. Qed.

Lemma preserves_read {A} (f : State → A) : preserves R (read f).
Proof. intros st. reflexivity. Qed.

Lemma preserves_update (f : State → State) :
  (∀ st, R st (f st)) → preserves R (update f).
Proof. intros Hf st. apply Hf. Qed.

Lemma preserves_bind {A B} (m : M A) (k : A → M B) :
  preserves R m → (∀ a, preserves R (k a)) → preserves R (m ≫= k).
Proof.
  intros Hm Hk st. unfold mbind, M_bind.
  destruct (completion (m st)) as [a|]; cbn.
  - transitivity (final (m st)); [apply Hm | apply Hk].
  - apply Hm.
Qed.

Lemma preserves_try_catch (body handler : M unit) :
  preserves R body → preserves R handler →
  preserves R (try_catch body handler).
Proof.
  intros Hb Hh st. unfold try_catch.
  destruct (completion (body st)); cbn.
  - apply Hb.
  - transitivity (final (body st)); [apply Hb | apply Hh].
Qed.

Lemma preserves_forEach {A} (f : A → M unit) (xs : list A) :
  (∀ x, preserves R (f x)) → preserves R (forEach f xs).
Proof.
  intros Hf. induction xs as [|x xs IH]; cbn.
  - apply preserves_ret.
  - apply preserves_bind; [apply Hf | intros _; apply IH].
Qed.

End Preservation.

(** ** Normal completion *)

Lemma returns_ret {A} (a : A) : returns (mret a).
Proof. intros st. by exists a. Qed.

Lemma returns_emit (e : Effect) : returns (emit e).
Proof. intros st. by exists (). Qed.

Lemma returns_read {A} (f : State → A) : returns (read f).
Proof. intros st. by exists (f st). Qed.

Lemma returns_update (f : State → State) : returns (update f).
Proof. intros st. by exists (). Qed.

Lemma returns_bind {A B} (m : M A) (k : A → M B) :
  returns m → (∀ a, returns (k a)) → returns (m ≫= k).
Proof.
  intros Hm Hk st. unfold mbind, M_bind.
  destruct (Hm st) as [a Ha]. rewrite Ha. cbn [completion].
  apply Hk.
Qed.

Lemma returns_forEach {A} (f : A → M unit) (xs : list A) :
  (∀ x, returns (f x)) → returns (forEach f xs).
Proof.
  intros Hf. induction xs as [|x xs IH]; cbn [forEach].
  - apply returns_ret.
  - apply returns_bind; [apply Hf | intros _; apply IH].
Qed.

Lemma returns_unit (m : M unit) (st : State) :
  returns m → completion (m st) = Normal ().
Proof. intros Hm. by destruct (Hm st) as [[] ->]. Qed.

Lemma final_bind {A B} (m : M A) (k : A → M B) (st : State) (a : A) :
  completion (m st) = Normal a →
  final ((m ≫= k) st) = final (k a (final (m st))).
Proof. intros Hm. unfold mbind, M_bind. by rewrite Hm. Qed.

Ltac returns_steps :=
  unfold_handlers;
  unfold setInputText, setIsListening, setTranscript, setMessages,
    setMsClientRef, setPermissionGranted, setConnectionError,
    setEffectCleanup;
  cbv zeta;
  repeat
    match goal with
    | |- returns (mret _) => apply returns_ret
    | |- returns (emit _) => apply returns_emit
    | |- returns (read _) => apply returns_read
    | |- returns (update _) => apply returns_update
    | |- returns (forEach _ _) => apply returns_forEach; intros ?
    | |- returns (_ ≫= _) => apply returns_bind; [|intros ?]
    | |- returns (match ?x with _ => _ end) => destruct x
    end.

Global Instance messages_extended_preorder : PreOrder messages_extended.
Proof.
  split.
  - intros st. unfold messages_extended. reflexivity.
  - intros st1 st2 st3. unfold messages_extended. apply transitivity.
Qed.

Global Instance same_cleanup_preorder : PreOrder same_cleanup.
Proof.
  split.
  - intros st. reflexivity.
  - intros st1 st2 st3. unfold same_cleanup. congruence.
Qed.

Global Instance stays_denied_preorder : PreOrder stays_denied.
Proof.
  split.
  - intros st H. exact H.
  - intros st1 st2 st3 H12 H23 H. apply H23, H12, H.
Qed.

(** Breaks a handler into its primitive steps; what is left are the
    [update]s, one goal each. *)
Ltac preserves_steps :=
  unfold_handlers;
  unfold setInputText, setIsListening, setTranscript, setMessages,
    setMsClientRef, setPermissionGranted, setConnectionError,
    setEffectCleanup;
  cbv zeta;
  repeat
    match goal with
    | |- preserves ?R (mret _) => apply (preserves_ret R)
    | |- preserves ?R throw => apply (preserves_throw R)
    | |- preserves ?R (emit _) => apply (preserves_emit R)
    | |- preserves ?R (read _) => apply (preserves_read R)
    | |- preserves ?R (try_catch _ _) => apply (preserves_try_catch R)
    | |- preserves ?R (forEach _ _) => apply (preserves_forEach R); intros ?
    | |- preserves ?R (_ ≫= _) => apply (preserves_bind R); [|intros ?]
    | |- preserves ?R (update _) => apply (preserves_update R); intros ?
    | |- preserves _ (match ?x with _ => _ end) => destruct x
    end.

Lemma step_extends_messages (a : Action) : preserves messages_extended (step a).
Proof.
  destruct a as [env media|sdk|env media sdk|sdk|env media sdk|value| |ev];
    try destruct ev; preserves_steps; unfold messages_extended;
    cbn [messages]; solve [reflexivity | by apply prefix_app_r].
Qed.

Lemma step_keeps_cleanup (a : Action) :
  in_lifetime a = true → preserves same_cleanup (step a).
Proof.
  destruct a as [env media|sdk|env media sdk|sdk|env media sdk|value| |ev];
    try discriminate; intros _;
    try destruct ev; preserves_steps; reflexivity.
Qed.

Lemma step_stays_denied (a : Action) :
  probe_rejected a = true → preserves stays_denied (step a).
Proof.
  destruct a as [env media|sdk|env media sdk|sdk|env media sdk|value| |ev];
    cbn [probe_rejected probe_of];
    try (destruct media; try discriminate); intros _;
    try destruct ev; preserves_steps; intros Hden;
    cbn [permissionGranted]; done.
Qed.

Lemma run_preserves (R : relation State) `{!PreOrder R}
    (p : Action → bool) (acts : list Action) :
  (∀ a, p a = true → preserves R (step a)) →
  forallb p acts = true → ∀ st, R st (run acts st).1.
Proof.
  intros Hstep. induction acts as [|a acts IH]; intros Hall st.
  - reflexivity.
  - cbn in Hall. apply andb_true_iff in Hall as [Ha Hall].
    cbn [run]. specialize (IH Hall (final (step a st))).
    destruct (run acts (final (step a st))) as [st' fx]. cbn [fst] in *.
    transitivity (final (step a st)); [by apply Hstep | exact IH].
Qed.

(** As long as every probe of the microphone is rejected, the component
    never records permission as granted. *)
Lemma permission_never_granted_while_rejected (acts : list Action) :
  forallb probe_rejected acts = true →
  permissionGranted (run acts initialState).1 = false.
Proof.
  intros Hall.
  by apply (run_preserves stays_denied probe_rejected acts step_stays_denied).
Qed.

(** The Message list of a run extends the one it started with. *)
Lemma run_extends_messages (acts : list Action) (st : State) :
  messages st `prefix_of` messages (run acts st).1.
Proof.
  apply (run_preserves messages_extended (λ _, true)).
  - intros a _. apply step_extends_messages.
  - by apply forallb_forall.
Qed.

(** ** The session lifecycle *)

Section Lifecycle.

Implicit Types (st : State) (env : ProcessEnv) (media : MediaResult)
  (sdk : SdkResult).

(** A start attempt made by a render that saw [permissionGranted = false]
    is exactly one permission probe. *)
Lemma startVoiceAgent_without_permission env media sdk st :
  permissionGranted st = false →
  startVoiceAgent env media sdk st =
  {| completion := Normal ();
     final := final (checkMicrophonePermission media st);
     effects := effects (checkMicrophonePermission media st) ++ [] |}.
Proof.
  intros Hpg. unfold startVoiceAgent, mbind, M_bind, read.
  cbn [completion final effects]. rewrite Hpg. cbn [negb].
  rewrite checkMicrophonePermission_completion. reflexivity.
Qed.

(** A start attempt made with permission and a client at hand, when the
    SDK's [start] returns. *)
Lemma startVoiceAgent_with_permission env media st client :
  permissionGranted st = true →
  msClientRef st = Some client →
  startVoiceAgent env media Returns st =
  {| completion := Normal ();
     final :=
       {| inputText := inputText st; isListening := true;
          transcript := transcript st; messages := messages st;
          msClientRef := msClientRef st;
          permissionGranted := permissionGranted st;
          connectionError := None;
          effectCleanup := effectCleanup st |};
     effects := [ClientStart (start_config env)] |}.
Proof.
  intros Hpg Href.
  unfold startVoiceAgent, mbind, M_bind, read.
  cbn [completion final effects]. rewrite Hpg. cbn [negb].
  unfold startSession, mbind, M_bind, read.
  cbn [completion final effects]. rewrite Href.
  unfold try_catch, client_start, setConnectionError, setIsListening,
    emit, update, mbind, M_bind, mret, M_ret.
  cbn [completion final effects app inputText isListening transcript
       messages msClientRef permissionGranted connectionError effectCleanup].
  rewrite ?Hpg, ?Href. reflexivity.
Qed.

(** C4.  When PermissionState is denied and the microphone probe is
    rejected, a start attempt completes without calling the client's
    [start], and leaves ConnectionError set to the advisory string
    (SessionState is not touched either). *)
Theorem start_denied_leaves_advisory env sdk st :
  permissionGranted st = false →
  invokes is_client_start (effects (startVoiceAgent env Rejected sdk st))
    = false
  ∧ connectionError (final (startVoiceAgent env Rejected sdk st))
    = Some (lit "Microphone access is required for the voice agent to work.")
  ∧ permissionGranted (final (startVoiceAgent env Rejected sdk st)) = false
  ∧ isListening (final (startVoiceAgent env Rejected sdk st))
    = isListening st
  ∧ completion (startVoiceAgent env Rejected sdk st) = Normal ().
Proof.
  intros Hpg. rewrite startVoiceAgent_without_permission by exact Hpg.
  cbn [completion final effects].
  rewrite checkMicrophonePermission_final, app_nil_r,
    checkMicrophonePermission_effects.
  repeat split.
Qed.

Lemma start_denied_leaves_advisory_witness :
  permissionGranted (run [Mount bare_env Rejected] initialState).1 = false
  ∧ invokes is_client_start
      (effects (startVoiceAgent bare_env Rejected Returns
                  (run [Mount bare_env Rejected] initialState).1)) = false
  ∧ connectionError
      (final (startVoiceAgent bare_env Rejected Returns
                (run [Mount bare_env Rejected] initialState).1))
    = Some (lit "Microphone access is required for the voice agent to work.").
Proof.
  split; [reflexivity|].
  pose proof
    (start_denied_leaves_advisory bare_env Returns
       (run [Mount bare_env Rejected] initialState).1 eq_refl)
    as (Hcall & Herr & _).
  split; [exact Hcall | exact Herr].
Defined.

(** C10.  A start attempt made while PermissionState is not granted never
    calls the client's [start] and never changes SessionState, whatever
    the probe answers.  When the probe succeeds the permission is
    recorded, and it is the next start attempt that calls the client's
    [start] and sets SessionState to listening. *)
Theorem start_without_permission_only_probes env media sdk st :
  permissionGranted st = false →
  invokes is_client_start (effects (startVoiceAgent env media sdk st))
    = false
  ∧ isListening (final (startVoiceAgent env media sdk st)) = isListening st
  ∧ completion (startVoiceAgent env media sdk st) = Normal ()
  ∧ ∀ tracks media',
      media = Resolved tracks →
      is_Some (msClientRef st) →
      let st' := final (startVoiceAgent env media sdk st) in
      permissionGranted st' = true
      ∧ invokes is_client_start
          (effects (startVoiceAgent env media' Returns st')) = true
      ∧ isListening (final (startVoiceAgent env media' Returns st')) = true.
Proof.
  intros Hpg. rewrite startVoiceAgent_without_permission by exact Hpg.
  cbn [completion final effects].
  rewrite checkMicrophonePermission_final, app_nil_r,
    checkMicrophonePermission_effects.
  split; [reflexivity|].
  split; [by destruct media|].
  split; [reflexivity|].
  intros tracks media' -> [client Href]. cbn zeta.
  split; [reflexivity|].
  erewrite startVoiceAgent_with_permission; [|reflexivity|exact Href].
  split; reflexivity.
Qed.

Lemma start_without_permission_only_probes_witness :
  permissionGranted (run [Mount bare_env Rejected] initialState).1 = false
  ∧ invokes is_client_start
      (effects (startVoiceAgent bare_env (Resolved 1) Returns
                  (run [Mount bare_env Rejected] initialState).1)) = false
  ∧ isListening
      (final (startVoiceAgent bare_env (Resolved 1) Returns
                (run [Mount bare_env Rejected] initialState).1)) = false
  ∧ isListening
      (final (startVoiceAgent bare_env (Resolved 1) Returns
                (final (startVoiceAgent bare_env (Resolved 1) Returns
                          (run [Mount bare_env Rejected] initialState).1))))
    = true.
Proof.
  split; [reflexivity|].
  pose proof
    (start_without_permission_only_probes bare_env (Resolved 1) Returns
       (run [Mount bare_env Rejected] initialState).1 eq_refl)
    as (Hcall & Hidle & _ & Hnext).
  split; [exact Hcall|].
  split; [exact Hidle|].
  apply (Hnext 1%nat (Resolved 1) eq_refl).
  by eexists.
Defined.

(** What [stopVoiceAgent] does, case by case. *)
Lemma stopVoiceAgent_outcome sdk st :
  stopVoiceAgent sdk st =
  match msClientRef st, sdk with
  | Some _, Throws =>
      {| completion := Thrown; final := st; effects := [ClientStop] |}
  | ref, _ =>
      {| completion := Normal ();
         final :=
           {| inputText := inputText st; isListening := false;
              transcript := transcript st; messages := messages st;
              msClientRef := msClientRef st;
              permissionGranted := permissionGranted st;
              connectionError := connectionError st;
              effectCleanup := effectCleanup st |};
         effects := match ref with Some _ => [ClientStop] | None => [] end |}
  end.
Proof.
  unfold_handlers. unfold_monad.
  destruct (msClientRef st) eqn:Href, sdk;
    cbn [completion final effects app]; rewrite ?Href; reflexivity.
Qed.




(** The cleanup stored by the mount effect closes over the [isListening]
    of the state the effect ran in. *)
Lemma mountEffect_cleanup env media st :
  effectCleanup (final (mountEffect env media st)) = Some (isListening st).
Proof.
  unfold mountEffect.
  rewrite (final_bind _ _ st (isListening st)) by reflexivity.
  unfold read at 2. cbn [final].
  rewrite (final_bind _ _ st (msClientRef st)) by reflexivity.
  unfold read at 1. cbn [final].
  rewrite (final_bind _ _ st ()); cycle 1.
  { apply returns_unit. returns_steps. }
  rewrite (final_bind _ _ _ ())
    by apply checkMicrophonePermission_completion.
  reflexivity.
Qed.

(** A cleanup that captured [isListening = false] returns without a call. *)
Lemma unmount_stale_cleanup sdk st :
  effectCleanup st = Some false → effects (unmount sdk st) = [].
Proof.
  intros Hstale.
  unfold unmount, mbind, M_bind, read.
  cbn [completion final effects]. rewrite Hstale.
  unfold setEffectCleanup, update, mountCleanup, mbind, M_bind, read.
  cbn [completion final effects msClientRef].
  rewrite andb_false_r. reflexivity.
Qed.

(** The cleanup stored by a mount from the initial state captured
    [isListening = false], and nothing that happens during the
    component's lifetime replaces it: unmounting never reaches the
    client. *)
Lemma unmount_never_calls_client env media (acts : list Action) sdk :
  forallb in_lifetime acts = true →
  effects (unmount sdk (run (Mount env media :: acts) initialState).1) = [].
Proof.
  intros Hall.
  pose proof
    (run_preserves same_cleanup in_lifetime acts step_keeps_cleanup Hall
       (final (step (Mount env media) initialState))) as Hsame.
  cbn [run].
  destruct (run acts (final (step (Mount env media) initialState)))
    as [st fx].
  cbn [fst] in *. unfold same_cleanup in Hsame.
  apply unmount_stale_cleanup. rewrite Hsame.
  cbn [step]. apply mountEffect_cleanup.
Qed.

(** C7.  Evaluation at the failing input: the page is mounted, the user
    starts a session, and the component is unmounted while SessionState
    is listening and the client handle exists.  The cleanup runs and
    returns without calling the client's [stop]. *)
Theorem unmount_while_listening_skips_client_stop sdk :
  isListening listening_page = true
  ∧ is_Some (msClientRef listening_page)
  ∧ effectCleanup listening_page = Some false
  ∧ invokes is_client_stop (effects (unmount sdk listening_page)) = false
  ∧ effects (unmount sdk listening_page) = [].
Proof.
  split; [reflexivity|].
  split; [by eexists|].
  repeat split.
Qed.

(** C8, as the code has it.  [stopVoiceAgent] never writes the partial
    transcript: the string after the stop is the string before it.  Once
    the stop has returned the partial transcript is no longer rendered,
    because the render shows it only while SessionState is listening. *)
Theorem stop_keeps_partial_transcript_hidden sdk st :
  transcript (final (stopVoiceAgent sdk st)) = transcript st
  ∧ (completion (stopVoiceAgent sdk st) = Normal () →
     showsPartialTranscript (final (stopVoiceAgent sdk st)) = false).
Proof.
  rewrite stopVoiceAgent_outcome.
  destruct (msClientRef st), sdk; cbn [completion final transcript];
    (split; [reflexivity|]); try discriminate; intros _;
    unfold showsPartialTranscript; cbn [isListening];
    apply andb_false_r.
Qed.

Lemma stop_keeps_partial_transcript_hidden_witness :
  completion (stopVoiceAgent Returns mid_utterance) = Normal ()
  ∧ showsPartialTranscript mid_utterance = true
  ∧ transcript (final (stopVoiceAgent Returns mid_utterance))
    = lit "hello wor"
  ∧ showsPartialTranscript (final (stopVoiceAgent Returns mid_utterance))
    = false.
Proof.
  split; [reflexivity|].
  split; [reflexivity|].
  pose proof (stop_keeps_partial_transcript_hidden Returns mid_utterance)
    as [Hkeep Hhide].
  split; [rewrite Hkeep; reflexivity | exact (Hhide eq_refl)].
Defined.

(** C8, as the claim has it, fails: stopping a session in the middle of
    an utterance returns normally and the partial transcript is still
    the text of the last transcript event, not the empty string. *)
Lemma stop_clears_partial_transcript_counterexample :
  completion (stopVoiceAgent Returns mid_utterance) = Normal ()
  ∧ ¬ transcript (final (stopVoiceAgent Returns mid_utterance)) = [].
Proof.
  split; [reflexivity|]. cbn. discriminate.
Qed.

End Lifecycle.

(** ** The transcript store *)

Section TranscriptStore.

Implicit Types (st : State).

(** C6.  Whatever happens to the component (mount, unmount, start, stop,
    the button, typing, submitting, any SDK event) the Message list
    before the step is a prefix of the Message list after it: entries
    are only ever added at the end. *)
Theorem messages_are_append_only (a : Action) st :
  messages st `prefix_of` messages (final (step a st)).
Proof. apply (step_extends_messages a st). Qed.

(** C9.  Submitting the form cancels the browser's default action and
    nothing else leaves the component: no call on the client.  When the
    trimmed input is non-empty, one user Message carrying the input is
    appended and the input field is emptied; when it is empty, the state
    is unchanged. *)
Theorem submit_echoes_locally st :
  handleSubmit st =
  {| completion := Normal ();
     final :=
       if truthy (trim (inputText st))
       then {| inputText := [];
               isListening := isListening st;
               transcript := transcript st;
               messages :=
                 messages st ++ [{| type := user; text := inputText st |}];
               msClientRef := msClientRef st;
               permissionGranted := permissionGranted st;
               connectionError := connectionError st;
               effectCleanup := effectCleanup st |}
       else st;
     effects := [PreventDefault] |}
  ∧ invokes is_client_call (effects (handleSubmit st)) = false.
Proof.
  crunch. destruct (truthy (trim (inputText st))); split; reflexivity.
Qed.

End TranscriptStore.

(** * Beyond the claims *)

(** ** More proof support *)

Ltac project :=
  cbn [completion final effects app inputText isListening transcript
       messages msClientRef permissionGranted connectionError effectCleanup].

Lemma effects_bind {A B} (m : M A) (k : A → M B) (st : State) (a : A) :
  completion (m st) = Normal a →
  effects ((m ≫= k) st) = effects (m st) ++ effects (k a (final (m st))).
Proof. intros Hm. unfold mbind, M_bind. by rewrite Hm. Qed.

Lemma completion_bind {A B} (m : M A) (k : A → M B) (st : State) (a : A) :
  completion (m st) = Normal a →
  completion ((m ≫= k) st) = completion (k a (final (m st))).
Proof. intros Hm. unfold mbind, M_bind. by rewrite Hm. Qed.

Lemma lit_nonempty (c : Ascii.ascii) (s : string) : lit (String c s) ≠ [].
Proof. unfold lit. cbn [String.list_ascii_of_string fmap list_fmap]. discriminate. Qed.

Lemma count_app (p : Effect → bool) (fx fx' : list Effect) :
  count p (fx ++ fx') = (count p fx + count p fx')%nat.
Proof. unfold count. by rewrite List.filter_app, length_app. Qed.

Lemma count_none (p : Effect → bool) (fx : list Effect) :
  forallb (λ e, negb (p e)) fx = true → count p fx = 0%nat.
Proof.
  unfold count. induction fx as [|e fx IH]; [reflexivity|].
  cbn [forallb List.filter]. intros [He Hfx]%andb_true_iff.
  apply negb_true_iff in He. rewrite He. by apply IH.
Qed.

Lemma forallb_track_stops (q : Effect → bool) (xs : list nat) :
  (∀ i, q (TrackStop i) = true) → forallb q (TrackStop <$> xs) = true.
Proof.
  intros Hq. induction xs as [|x xs IH]; [reflexivity|].
  cbn [fmap list_fmap forallb]. by rewrite Hq, IH.
Qed.

(** The calls of the permission probe. *)
Lemma checkMicrophonePermission_calls media st :
  effects (checkMicrophonePermission media st) = probe_calls media.
Proof.
  destruct media as [tracks|]; unfold checkMicrophonePermission, probe_calls.
  - rewrite (effects_bind _ _ st ()) by reflexivity.
    unfold emit at 1 2. cbn [effects final app]. f_equal.
    rewrite (effects_bind _ _ st ()) by reflexivity.
    unfold setPermissionGranted at 1, update. cbn [effects app].
    apply (forEach_emit_effects TrackStop).
  - reflexivity.
Qed.

(** [startVoiceAgent] from the client check on, case by case. *)
Lemma startSession_outcome env sdk st :
  startSession env sdk st =
  match msClientRef st, sdk with
  | None, _ =>
      {| completion := Normal ();
         final :=
           {| inputText := inputText st; isListening := isListening st;
              transcript := transcript st; messages := messages st;
              msClientRef := msClientRef st;
              permissionGranted := permissionGranted st;
              connectionError :=
                Some (lit "Client initialization failed. Please refresh the page.");
              effectCleanup := effectCleanup st |};
         effects := [] |}
  | Some _, Returns =>
      {| completion := Normal ();
         final :=
           {| inputText := inputText st; isListening := true;
              transcript := transcript st; messages := messages st;
              msClientRef := msClientRef st;
              permissionGranted := permissionGranted st;
              connectionError := None;
              effectCleanup := effectCleanup st |};
         effects := [ClientStart (start_config env)] |}
  | Some _, Throws =>
      {| completion := Normal ();
         final :=
           {| inputText := inputText st; isListening := isListening st;
              transcript := transcript st; messages := messages st;
              msClientRef := msClientRef st;
              permissionGranted := permissionGranted st;
              connectionError :=
                Some (lit "Failed to start the voice agent. Please try again.");
              effectCleanup := effectCleanup st |};
         effects := [ClientStart (start_config env)] |}
  end.
Proof.
  unfold startSession, mbind, M_bind, read. project.
  destruct (msClientRef st) as [client|] eqn:Href; [destruct sdk|];
    unfold try_catch, client_start, setConnectionError, setIsListening,
      emit, update, throw, mbind, M_bind, mret, M_ret;
    project; rewrite ?Href; reflexivity.
Qed.

(** [startVoiceAgent] is a probe when the render saw no permission, and the
    client part otherwise. *)
Lemma startVoiceAgent_outcome env media sdk st :
  startVoiceAgent env media sdk st =
  if permissionGranted st
  then startSession env sdk st
  else {| completion := Normal ();
          final := final (checkMicrophonePermission media st);
          effects := probe_calls media |}.
Proof.
  destruct (permissionGranted st) eqn:Hpg.
  - unfold startVoiceAgent, mbind, M_bind, read. project. rewrite Hpg.
    cbn [negb]. destruct (startSession env sdk st) as [[[]|] st' fx];
      project; reflexivity.
  - unfold startVoiceAgent, mbind, M_bind, read. project. rewrite Hpg.
    cbn [negb]. rewrite checkMicrophonePermission_completion. project.
    rewrite checkMicrophonePermission_calls, app_nil_r. reflexivity.
Qed.

(** ** Starting a session *)

Section Starting.

Implicit Types (st : State) (env : ProcessEnv) (media : MediaResult)
  (sdk : SdkResult).

(** X1.  [startVoiceAgent] never throws: a rejected probe is caught inside
    [checkMicrophonePermission], and an exception of the SDK's [start] is
    caught by the [try] around it. *)
Theorem start_never_throws env media sdk st :
  completion (startVoiceAgent env media sdk st) = Normal ().
Proof.
  rewrite startVoiceAgent_outcome, startSession_outcome.
  destruct (permissionGranted st), (msClientRef st), sdk; reflexivity.
Qed.

(** X2.  When permission is granted and a client exists but the SDK's
    [start] throws, the client's [start] has been called once, the
    failure is reported in ConnectionError and nothing else changes: in
    particular SessionState is not set to listening. *)
Theorem start_failure_is_reported env media st client :
  permissionGranted st = true →
  msClientRef st = Some client →
  startVoiceAgent env media Throws st =
  {| completion := Normal ();
     final :=
       {| inputText := inputText st; isListening := isListening st;
          transcript := transcript st; messages := messages st;
          msClientRef := msClientRef st;
          permissionGranted := permissionGranted st;
          connectionError :=
            Some (lit "Failed to start the voice agent. Please try again.");
          effectCleanup := effectCleanup st |};
     effects := [ClientStart (start_config env)] |}.
Proof.
  intros Hpg Href.
  rewrite startVoiceAgent_outcome, startSession_outcome, Hpg, Href.
  reflexivity.
Qed.

Lemma start_failure_is_reported_witness :
  permissionGranted mounted_page = true
  ∧ is_Some (msClientRef mounted_page)
  ∧ isListening
      (final (startVoiceAgent bare_env Rejected Throws mounted_page)) = false
  ∧ connectionError
      (final (startVoiceAgent bare_env Rejected Throws mounted_page))
    = Some (lit "Failed to start the voice agent. Please try again.").
Proof.
  split; [reflexivity|].
  split; [by eexists|].
  rewrite (start_failure_is_reported bare_env Rejected mounted_page
             (mounted_client bare_env) eq_refl eq_refl).
  split; reflexivity.
Defined.

(** X3.  When permission is granted but no client handle exists,
    [startVoiceAgent] makes no call at all, reports the missing client in
    ConnectionError and changes nothing else. *)
Theorem start_without_client_is_reported env media sdk st :
  permissionGranted st = true →
  msClientRef st = None →
  startVoiceAgent env media sdk st =
  {| completion := Normal ();
     final :=
       {| inputText := inputText st; isListening := isListening st;
          transcript := transcript st; messages := messages st;
          msClientRef := None;
          permissionGranted := permissionGranted st;
          connectionError :=
            Some (lit "Client initialization failed. Please refresh the page.");
          effectCleanup := effectCleanup st |};
     effects := [] |}.
Proof.
  intros Hpg Href.
  rewrite startVoiceAgent_outcome, startSession_outcome, Hpg, Href.
  reflexivity.
Qed.

Lemma start_without_client_is_reported_witness :
  permissionGranted
    (final (checkMicrophonePermission (Resolved 1) initialState)) = true
  ∧ msClientRef
      (final (checkMicrophonePermission (Resolved 1) initialState)) = None
  ∧ effects
      (startVoiceAgent bare_env Rejected Returns
         (final (checkMicrophonePermission (Resolved 1) initialState))) = []
  ∧ connectionError
      (final
         (startVoiceAgent bare_env Rejected Returns
            (final (checkMicrophonePermission (Resolved 1) initialState))))
    = Some (lit "Client initialization failed. Please refresh the page.").
Proof.
  split; [reflexivity|].
  split; [reflexivity|].
  rewrite (start_without_client_is_reported bare_env Rejected Returns
             (final (checkMicrophonePermission (Resolved 1) initialState))
             eq_refl eq_refl).
  split; reflexivity.
Defined.

(** X4.  A start attempt asks for the microphone exactly once when the
    render saw no permission, and not at all when permission is already
    granted. *)
Theorem start_probes_only_without_permission env media sdk st :
  count is_get_user_media (effects (startVoiceAgent env media sdk st)) =
  if permissionGranted st then 0%nat else 1%nat.
Proof.
  rewrite startVoiceAgent_outcome, startSession_outcome.
  destruct (permissionGranted st).
  - by destruct (msClientRef st), sdk.
  - cbn [effects]. destruct media as [tracks|]; [|reflexivity].
    change (probe_calls (Resolved tracks))
      with ([GetUserMedia] ++ (TrackStop <$> seq 0 tracks)).
    rewrite count_app, (count_none is_get_user_media (TrackStop <$> _));
      [reflexivity|].
    by apply forallb_track_stops.
Qed.

(** X5.  When a start attempt's probe is granted, the permission is
    recorded but ConnectionError is left as it was: an advisory shown
    since an earlier refusal stays on the page. *)
Theorem granted_probe_keeps_advisory env tracks sdk st :
  permissionGranted st = false →
  permissionGranted (final (startVoiceAgent env (Resolved tracks) sdk st))
    = true
  ∧ connectionError (final (startVoiceAgent env (Resolved tracks) sdk st))
    = connectionError st.
Proof.
  intros Hpg. rewrite startVoiceAgent_outcome, Hpg. cbn [final].
  rewrite checkMicrophonePermission_final. split; reflexivity.
Qed.

Lemma granted_probe_keeps_advisory_witness :
  permissionGranted refused_page = false
  ∧ permissionGranted
      (final (startVoiceAgent bare_env (Resolved 1) Returns refused_page))
    = true
  ∧ connectionError
      (final (startVoiceAgent bare_env (Resolved 1) Returns refused_page))
    = Some microphone_advisory.
Proof.
  split; [reflexivity|].
  destruct (granted_probe_keeps_advisory bare_env 1%nat Returns refused_page
              eq_refl) as [Hgranted Hkept].
  split; [exact Hgranted | rewrite Hkept; reflexivity].
Defined.

End Starting.

(** ** More on the event bridge *)

Section Listeners.

Implicit Types (st : State) (ev : SdkEvent).

Ltac listener_cases ev :=
  destruct ev as [| | |text payload|text payload| | |event|];
  unfold listener, on_onopen, on_onready, on_onaudio, on_onresponsetext,
    on_ontranscript, on_useraudioready, on_onsessionended, on_onclose,
    on_onerror;
  unfold_monad; project;
  try destruct (payload_final payload && truthy text);
  try destruct (payload_final payload);
  try destruct (negb (code event =? 1000));
  project.

(** X6.  The listeners are pure state updates: whatever the event, the
    listener returns normally, makes no call on the client or the
    browser, and leaves the input text, the client handle, the recorded
    permission and the stored cleanup untouched. *)
Theorem listeners_are_silent ev st :
  completion (listener ev st) = Normal ()
  ∧ effects (listener ev st) = []
  ∧ inputText (final (listener ev st)) = inputText st
  ∧ msClientRef (final (listener ev st)) = msClientRef st
  ∧ permissionGranted (final (listener ev st)) = permissionGranted st
  ∧ effectCleanup (final (listener ev st)) = effectCleanup st.
Proof. listener_cases ev; repeat split. Qed.

Lemma listener_isListening ev st :
  isListening (final (listener ev st))
  = isListening st && negb (ends_session ev).
Proof.
  listener_cases ev; cbn [ends_session negb];
    rewrite ?andb_true_r, ?andb_false_r; reflexivity.
Qed.

(** X7.  No SDK event ever sets SessionState to listening.  After any
    sequence of events, SessionState is listening exactly when it was
    listening before and none of the events was a session end, a close
    (with any code) or an error. *)
Theorem vendor_events_only_end_listening (evs : list SdkEvent) st :
  isListening (deliver evs st)
  = isListening st && forallb (λ ev, negb (ends_session ev)) evs.
Proof.
  revert st. induction evs as [|ev evs IH]; intros st.
  - cbn. by rewrite andb_true_r.
  - cbn [deliver forallb]. rewrite IH, listener_isListening.
    by rewrite andb_assoc.
Qed.

(** X8.  While a session is listening, a final transcript event with text
    is shown twice: it is appended to the Message list, and the same text
    is still the partial transcript, which the render keeps showing until
    the next transcript event. *)
Theorem final_transcript_stays_as_partial (text : jsstring)
    (payload : Payload) st :
  payload_final payload = true →
  truthy text = true →
  isListening st = true →
  messages (final (on_ontranscript text payload st))
    = messages st ++ [{| type := user; text := text |}]
  ∧ transcript (final (on_ontranscript text payload st)) = text
  ∧ showsPartialTranscript (final (on_ontranscript text payload st)) = true.
Proof.
  intros Hfinal Htext Hlistening.
  rewrite on_ontranscript_outcome, Hfinal, Htext.
  unfold showsPartialTranscript. project.
  rewrite Htext, Hlistening. repeat split.
Qed.

Lemma final_transcript_stays_as_partial_witness :
  payload_final {| is_final := Some true |} = true
  ∧ truthy (lit "hello world") = true
  ∧ isListening mid_utterance = true
  ∧ messages
      (final (on_ontranscript (lit "hello world") {| is_final := Some true |}
                mid_utterance))
    = [{| type := user; text := lit "hello world" |}]
  ∧ showsPartialTranscript
      (final (on_ontranscript (lit "hello world") {| is_final := Some true |}
                mid_utterance)) = true.
Proof.
  split; [reflexivity|].
  split; [reflexivity|].
  split; [reflexivity|].
  destruct (final_transcript_stays_as_partial (lit "hello world")
              {| is_final := Some true |} mid_utterance
              eq_refl eq_refl eq_refl) as (Hmsgs & _ & Hshown).
  split; [rewrite Hmsgs; reflexivity | exact Hshown].
Defined.

End Listeners.

(** ** Which calls a handler can make *)

Section Emission.

Context (q : Effect → bool).

Lemma emits_only_ret {A} (a : A) : emits_only q (mret a).
Proof. intros st. reflexivity. Qed.

Lemma emits_only_throw {A} : emits_only q (@throw A).
Proof. intros st. reflexivity. Qed.

Lemma emits_only_read {A} (f : State → A) : emits_only q (read f).
Proof. intros st. reflexivity. Qed.

Lemma emits_only_update (f : State → State) : emits_only q (update f).
Proof. intros st. reflexivity. Qed.

Lemma emits_only_emit (e : Effect) : q e = true → emits_only q (emit e).
Proof. intros He st. cbn. by rewrite He. Qed.

Lemma emits_only_bind {A B} (m : M A) (k : A → M B) :
  emits_only q m → (∀ a, emits_only q (k a)) → emits_only q (m ≫= k).
Proof.
  intros Hm Hk st. unfold mbind, M_bind.
  destruct (completion (m st)) as [a|]; cbn [effects].
  - rewrite forallb_app, Hm. apply Hk.
  - apply Hm.
Qed.

Lemma emits_only_try_catch (body handler : M unit) :
  emits_only q body → emits_only q handler →
  emits_only q (try_catch body handler).
Proof.
  intros Hb Hh st. unfold try_catch.
  destruct (completion (body st)); cbn [effects].
  - apply Hb.
  - rewrite forallb_app, Hb. apply Hh.
Qed.

Lemma emits_only_forEach {A} (f : A → M unit) (xs : list A) :
  (∀ x, emits_only q (f x)) → emits_only q (forEach f xs).
Proof.
  intros Hf. induction xs as [|x xs IH]; cbn [forEach].
  - apply emits_only_ret.
  - apply emits_only_bind; [apply Hf | intros _; apply IH].
Qed.

End Emission.

(** Breaks a handler into its primitive steps; what is left are the
    [emit]s, one goal [q e = true] each. *)
Ltac emits_steps :=
  unfold_handlers;
  unfold setInputText, setIsListening, setTranscript, setMessages,
    setMsClientRef, setPermissionGranted, setConnectionError,
    setEffectCleanup;
  cbv zeta;
  repeat
    match goal with
    | |- emits_only ?q (mret _) => apply (emits_only_ret q)
    | |- emits_only ?q throw => apply (emits_only_throw q)
    | |- emits_only ?q (read _) => apply (emits_only_read q)
    | |- emits_only ?q (update _) => apply (emits_only_update q)
    | |- emits_only ?q (emit _) => apply (emits_only_emit q)
    | |- emits_only ?q (try_catch _ _) => apply (emits_only_try_catch q)
    | |- emits_only ?q (forEach _ _) => apply (emits_only_forEach q); intros ?
    | |- emits_only ?q (_ ≫= _) => apply (emits_only_bind q); [|intros ?]
    | |- emits_only _ (match ?x with _ => _ end) => destruct x
    end.

Lemma invokes_none (p : Effect → bool) (fx : list Effect) :
  forallb (λ e, negb (p e)) fx = true → invokes p fx = false.
Proof.
  unfold invokes. induction fx as [|e fx IH]; [reflexivity|].
  cbn [forallb existsb]. intros [He Hfx]%andb_true_iff.
  apply negb_true_iff in He. rewrite He. by apply IH.
Qed.

(** Only the start actions can reach the client's [start]. *)
Lemma step_emits_no_client_start (a : Action) :
  is_start_action a = false →
  emits_only (λ e, negb (is_client_start e)) (step a).
Proof.
  destruct a as [env media|sdk|env media sdk|sdk|env media sdk|value| |ev];
    try discriminate; intros _;
    try destruct ev; emits_steps; reflexivity.
Qed.

(** Only the mount effect can set the client up. *)
Lemma step_emits_no_client_setup (a : Action) :
  (∀ env media, a ≠ Mount env media) →
  emits_only (λ e, negb (is_client_setup e)) (step a).
Proof.
  destruct a as [env media|sdk|env media sdk|sdk|env media sdk|value| |ev];
    intros Hmount; try (by destruct (Hmount env media));
    try destruct ev; emits_steps; reflexivity.
Qed.

(** [setupEventListeners], case by case. *)
Lemma setupEventListeners_outcome (st : State) :
  setupEventListeners st =
  {| completion := Normal ();
     final := st;
     effects :=
       match msClientRef st with
       | Some _ => ClientOn <$> event_names
       | None => []
       end |}.
Proof.
  unfold setupEventListeners, mbind, M_bind, read. project.
  destruct (msClientRef st); reflexivity.
Qed.

Lemma read_bind {A B} (f : State → A) (k : A → M B) (st : State) :
  (read f ≫= k) st = k (f st) st.
Proof.
  unfold mbind, M_bind, read. project. by destruct (k (f st) st).
Qed.

Lemma ret_bind {A B} (a : A) (k : A → M B) (st : State) :
  (mret a ≫= k) st = k a st.
Proof.
  unfold mbind, M_bind, mret, M_ret. project. by destruct (k a st).
Qed.

Lemma update_bind {B} (f : State → State) (k : unit → M B) (st : State) :
  (update f ≫= k) st = k () (f st).
Proof.
  unfold mbind, M_bind, update. project. by destruct (k () (f st)).
Qed.

Lemma emit_bind {B} (e : Effect) (k : unit → M B) (st : State) :
  (emit e ≫= k) st =
  {| completion := completion (k () st);
     final := final (k () st);
     effects := e :: effects (k () st) |}.
Proof. reflexivity. Qed.

(** The first half of the mount effect when no client exists yet. *)
Lemma mount_creates_client (client : MillisClient) (st : State) :
  (emit (CreateClient client) ;; setMsClientRef client ;; setupEventListeners)
    st =
  {| completion := Normal ();
     final :=
       {| inputText := inputText st; isListening := isListening st;
          transcript := transcript st; messages := messages st;
          msClientRef := Some client;
          permissionGranted := permissionGranted st;
          connectionError := connectionError st;
          effectCleanup := effectCleanup st |};
     effects := CreateClient client :: (ClientOn <$> event_names) |}.
Proof.
  rewrite emit_bind. unfold setMsClientRef. rewrite update_bind.
  rewrite setupEventListeners_outcome. reflexivity.
Qed.

Lemma bind_normal {A B} (m : M A) (k : A → M B) (st : State) (a : A) :
  completion (m st) = Normal a →
  (m ≫= k) st =
  {| completion := completion (k a (final (m st)));
     final := final (k a (final (m st)));
     effects := effects (m st) ++ effects (k a (final (m st))) |}.
Proof. intros Hm. unfold mbind, M_bind. by rewrite Hm. Qed.

(** The mount effect, case by case. *)
Lemma mountEffect_outcome env media (st : State) :
  completion (mountEffect env media st) = Normal ()
  ∧ effects (mountEffect env media st) =
    match msClientRef st with
    | None =>
        CreateClient (mounted_client env) :: (ClientOn <$> event_names)
        ++ probe_calls media
    | Some _ => probe_calls media
    end
  ∧ msClientRef (final (mountEffect env media st)) =
    match msClientRef st with
    | None => Some (mounted_client env)
    | Some client => Some client
    end.
Proof.
  unfold mountEffect. rewrite !read_bind. cbv zeta.
  fold (mounted_client env).
  destruct (msClientRef st) as [client|] eqn:Href.
  - rewrite ret_bind.
    rewrite (bind_normal (checkMicrophonePermission media) _ st ())
      by apply checkMicrophonePermission_completion.
    rewrite checkMicrophonePermission_calls.
    unfold setEffectCleanup, update. project.
    rewrite checkMicrophonePermission_final, app_nil_r.
    destruct media; project; rewrite Href; repeat split.
  - pose proof (mount_creates_client (mounted_client env) st) as Hinit.
    rewrite (bind_normal _ _ st ()) by (by rewrite Hinit).
    rewrite Hinit. project.
    rewrite (bind_normal (checkMicrophonePermission media) _ _ ())
      by apply checkMicrophonePermission_completion.
    rewrite checkMicrophonePermission_calls.
    unfold setEffectCleanup, update. project.
    rewrite checkMicrophonePermission_final, app_nil_r.
    destruct media; project; repeat split.
Qed.

Global Instance keeps_preorder (P : State → Prop) : PreOrder (keeps P).
Proof.
  split.
  - intros st H. exact H.
  - intros st1 st2 st3 H12 H23 H. apply H23, H12, H.
Qed.

Lemma count_probe_calls (p : Effect → bool) media :
  p GetUserMedia = false → (∀ i, p (TrackStop i) = false) →
  count p (probe_calls media) = 0%nat.
Proof.
  intros Hget Hstop. apply count_none. unfold probe_calls.
  cbn [forallb]. rewrite Hget. cbn [negb andb].
  destruct media as [tracks|]; [|reflexivity].
  apply forallb_track_stops. intros i. by rewrite Hstop.
Qed.

(** Every action leaves an existing client handle in place. *)
Lemma step_keeps_client (client : MillisClient) (a : Action) :
  preserves (keeps (λ st, msClientRef st = Some client)) (step a).
Proof.
  destruct a as [env media|sdk|env media sdk|sdk|env media sdk|value| |ev].
  1: { intros st Href. cbn [step].
       destruct (mountEffect_outcome env media st) as (_ & _ & Hfinal).
       by rewrite Hfinal, Href. }
  all: try destruct ev; preserves_steps; unfold keeps; project;
    intros Href; exact Href.
Qed.

(** With a client handle in place, no action sets the client up again. *)
Lemma step_no_setup_with_handle (a : Action) (st : State)
    (client : MillisClient) :
  msClientRef st = Some client →
  count is_client_setup (effects (step a st)) = 0%nat.
Proof.
  intros Href.
  assert (∀ a', (∀ env media, a' ≠ Mount env media) →
                count is_client_setup (effects (step a' st)) = 0%nat)
    as Hother.
  { intros a' Ha'. apply count_none.
    apply (step_emits_no_client_setup a' Ha' st). }
  destruct a as [env media|sdk|env media sdk|sdk|env media sdk|value| |ev];
    try (by apply Hother).
  cbn [step]. destruct (mountEffect_outcome env media st) as (_ & Hfx & _).
  rewrite Hfx, Href. by apply count_probe_calls.
Qed.

(** ** The client handle *)

Section ClientHandle.

Implicit Types (st : State) (env : ProcessEnv) (media : MediaResult).

(** X10.  While the component instance stays mounted, a client handle
    that exists is never set up again: whatever the actions, and however
    often the mount effect runs, there is no further [createClient] and
    no further registration of a listener. *)
Theorem client_set_up_once_per_instance (acts : list Action) st
    (client : MillisClient) :
  msClientRef st = Some client →
  forallb stays_mounted acts = true →
  count is_client_setup (run acts st).2 = 0%nat.
Proof.
  revert st. induction acts as [|a acts IH]; intros st Href Hmounted.
  - reflexivity.
  - cbn [forallb] in Hmounted.
    apply andb_true_iff in Hmounted as [_ Hmounted].
    cbn [run].
    specialize (IH (final (step a st))
                  (step_keeps_client client a st Href) Hmounted).
    destruct (run acts (final (step a st))) as [st' fx]. cbn [snd] in *.
    by rewrite count_app, (step_no_setup_with_handle a st client Href), IH.
Qed.

Lemma client_set_up_once_per_instance_witness :
  msClientRef mounted_page = Some (mounted_client bare_env)
  ∧ forallb stays_mounted
      [Mount bare_env (Resolved 1);
       Start bare_env Rejected Returns;
       Fire (Close {| code := 1006; reason := [] |});
       Stop Throws] = true
  ∧ count is_client_setup
      (run [Mount bare_env (Resolved 1);
            Start bare_env Rejected Returns;
            Fire (Close {| code := 1006; reason := [] |});
            Stop Throws]
           mounted_page).2 = 0%nat.
Proof.
  split; [reflexivity|].
  split; [reflexivity|].
  apply (client_set_up_once_per_instance _ mounted_page
           (mounted_client bare_env)); reflexivity.
Defined.

(** X11.  While the component instance stays mounted, a client handle
    that exists is neither replaced nor cleared, whatever the actions. *)
Theorem client_handle_is_kept (acts : list Action) st
    (client : MillisClient) :
  msClientRef st = Some client →
  forallb stays_mounted acts = true →
  msClientRef (run acts st).1 = Some client.
Proof.
  intros Href Hmounted.
  apply (run_preserves (keeps (λ st, msClientRef st = Some client))
           stays_mounted acts); [|exact Hmounted|exact Href].
  intros a _. apply step_keeps_client.
Qed.

Lemma client_handle_is_kept_witness :
  msClientRef mounted_page = Some (mounted_client bare_env)
  ∧ forallb stays_mounted
      [Start bare_env Rejected Returns;
       Fire (Close {| code := 1006; reason := [] |});
       Mount bare_env Rejected;
       Stop Throws] = true
  ∧ msClientRef
      (run [Start bare_env Rejected Returns;
            Fire (Close {| code := 1006; reason := [] |});
            Mount bare_env Rejected;
            Stop Throws]
           mounted_page).1
    = Some (mounted_client bare_env).
Proof.
  split; [reflexivity|].
  split; [reflexivity|].
  apply (client_handle_is_kept _ mounted_page (mounted_client bare_env));
    reflexivity.
Defined.

(** X12.  The client is never created with an empty public key: when the
    environment variable is unset or empty the built-in key is used, and
    the endpoint is always the fixed one. *)
Theorem client_public_key_never_empty env media st :
  msClientRef st = None →
  ∃ client,
    msClientRef (final (mountEffect env media st)) = Some client
    ∧ publicKey client ≠ []
    ∧ (NEXT_PUBLIC_MILLIS_PUBLIC_KEY env = None
       ∨ NEXT_PUBLIC_MILLIS_PUBLIC_KEY env = Some [] →
       publicKey client = lit "F0DzXOcj6UDsfULztsNQuS4HBXDJntNg")
    ∧ endPoint client = lit "wss://api-eu-west.millis.ai/millis".
Proof.
  intros Href. exists (mounted_client env).
  destruct (mountEffect_outcome env media st) as (_ & _ & Hfinal).
  rewrite Hfinal, Href. split; [reflexivity|].
  unfold mounted_client. cbn [publicKey endPoint].
  destruct (NEXT_PUBLIC_MILLIS_PUBLIC_KEY env) as [[|c key]|];
    cbn [or_default or_else truthy];
    repeat split; try discriminate; try apply lit_nonempty.
  intros [?|?]; discriminate.
Qed.

Lemma client_public_key_never_empty_witness :
  msClientRef initialState = None
  ∧ ∃ client,
      msClientRef
        (final
           (mountEffect
              {| NEXT_PUBLIC_MILLIS_PUBLIC_KEY := Some [];
                 NEXT_PUBLIC_MILLIS_API_KEY := None;
                 NEXT_PUBLIC_MILLIS_AGENT_ID := None;
                 NEXT_PUBLIC_USE_OPENAI_PROXY := None |}
              Rejected initialState)) = Some client
      ∧ publicKey client ≠ [].
Proof.
  split; [reflexivity|].
  destruct (client_public_key_never_empty
              {| NEXT_PUBLIC_MILLIS_PUBLIC_KEY := Some [];
                 NEXT_PUBLIC_MILLIS_API_KEY := None;
                 NEXT_PUBLIC_MILLIS_AGENT_ID := None;
                 NEXT_PUBLIC_USE_OPENAI_PROXY := None |}
              Rejected initialState eq_refl)
    as (client & Href & Hkey & _).
  exists client. split; [exact Href | exact Hkey].
Defined.

End ClientHandle.

(** ** SessionState and the client *)

(** Outside the start actions, an idle session stays idle. *)
Lemma step_stays_idle (a : Action) :
  is_start_action a = false →
  preserves (keeps (λ st, isListening st = false)) (step a).
Proof.
  destruct a as [env media|sdk|env media sdk|sdk|env media sdk|value| |ev];
    try discriminate; intros _;
    try destruct ev; preserves_steps; unfold keeps; project;
    intros Hidle; first [exact Hidle | reflexivity].
Qed.

Lemma button_onClick_outcome env media sdk (st : State) :
  button_onClick env media sdk st =
  if isListening st
  then stopVoiceAgent sdk st
  else startVoiceAgent env media sdk st.
Proof.
  unfold button_onClick. rewrite read_bind. by destruct (isListening st).
Qed.

(** [startVoiceAgent] sets SessionState to listening only together with a
    call of the client's [start], and only when a handle exists. *)
Lemma startVoiceAgent_listening env media sdk (st : State) :
  isListening st = false →
  isListening (final (startVoiceAgent env media sdk st)) = true →
  invokes is_client_start (effects (startVoiceAgent env media sdk st)) = true
  ∧ is_Some (msClientRef (final (startVoiceAgent env media sdk st))).
Proof.
  rewrite startVoiceAgent_outcome, startSession_outcome.
  destruct (permissionGranted st).
  - destruct (msClientRef st) as [client|] eqn:Href, sdk; project;
      rewrite ?Href; intros Hidle Hlistening;
      first [congruence | split; [reflexivity | by eexists]].
  - cbn [final]. rewrite checkMicrophonePermission_final.
    destruct media; project; congruence.
Qed.

Lemma step_keeps_listening_has_client (a : Action) :
  preserves (keeps listening_has_client) (step a).
Proof.
  assert (∀ env media sdk,
            preserves (keeps listening_has_client)
              (startVoiceAgent env media sdk)) as Hstart.
  { intros env media sdk st Hinv Hlistening.
    destruct (isListening st) eqn:Hbefore.
    - destruct (Hinv Hbefore) as [client Href].
      exists client.
      apply (step_keeps_client client (Start env media sdk) st Href).
    - by apply startVoiceAgent_listening. }
  destruct a as [env media|sdk|env media sdk|sdk|env media sdk|value| |ev].
  3: apply Hstart.
  4: { intros st. cbn [step]. rewrite button_onClick_outcome.
       destruct (isListening st) eqn:Hbefore; [|apply Hstart].
       intros _. rewrite stopVoiceAgent_outcome.
       destruct (msClientRef st) as [client|] eqn:Href, sdk;
         unfold listening_has_client; project; rewrite ?Href;
         first [discriminate | by eexists]. }
  all: try destruct ev; preserves_steps;
    unfold keeps, listening_has_client; project;
    intros Hinv Hlistening;
    first [discriminate | by eexists | exact (Hinv Hlistening)].
Qed.

Section SessionState.

Implicit Types (st : State) (env : ProcessEnv) (media : MediaResult)
  (sdk : SdkResult).

(** X13.  SessionState goes from idle to listening only in a step that
    called the client's [start]. *)
Theorem listening_only_after_client_start (a : Action) st :
  isListening st = false →
  isListening (final (step a st)) = true →
  invokes is_client_start (effects (step a st)) = true.
Proof.
  intros Hidle Hlistening.
  destruct (is_start_action a) eqn:Hstart.
  - destruct a as [| |env media sdk| |env media sdk| | |];
      try discriminate; cbn [step] in *.
    + by apply startVoiceAgent_listening.
    + rewrite button_onClick_outcome, Hidle in *.
      by apply startVoiceAgent_listening.
  - pose proof (step_stays_idle a Hstart st Hidle) as Hstays.
    congruence.
Qed.

Lemma listening_only_after_client_start_witness :
  isListening mounted_page = false
  ∧ isListening
      (final (step (ClickButton bare_env Rejected Returns) mounted_page))
    = true
  ∧ invokes is_client_start
      (effects (step (ClickButton bare_env Rejected Returns) mounted_page))
    = true.
Proof.
  split; [reflexivity|].
  split; [reflexivity|].
  apply (listening_only_after_client_start
           (ClickButton bare_env Rejected Returns) mounted_page);
    reflexivity.
Defined.

(** X14.  Only [startVoiceAgent] (run directly or through the button)
    ever calls the client's [start]: mounting, unmounting, stopping,
    typing, submitting and the SDK events never do. *)
Theorem client_start_only_from_start_actions (a : Action) st :
  is_start_action a = false →
  invokes is_client_start (effects (step a st)) = false.
Proof.
  intros Hstart. apply invokes_none.
  apply (step_emits_no_client_start a Hstart st).
Qed.

Lemma client_start_only_from_start_actions_witness :
  is_start_action (Mount bare_env (Resolved 2)) = false
  ∧ invokes is_client_start
      (effects (step (Mount bare_env (Resolved 2)) initialState)) = false.
Proof.
  split; [reflexivity|].
  apply (client_start_only_from_start_actions
           (Mount bare_env (Resolved 2)) initialState).
  reflexivity.
Defined.

(** X15.  In every state the component can reach from its initial state,
    SessionState is listening only if a client handle exists. *)
Theorem listening_implies_client (acts : list Action) :
  isListening (run acts initialState).1 = true →
  is_Some (msClientRef (run acts initialState).1).
Proof.
  apply (run_preserves (keeps listening_has_client) (λ _, true) acts).
  - intros a _. apply step_keeps_listening_has_client.
  - by apply forallb_forall.
  - discriminate.
Qed.

Lemma listening_implies_client_witness :
  isListening
    (run [Mount bare_env (Resolved 1); Start bare_env Rejected Returns]
         initialState).1 = true
  ∧ is_Some
      (msClientRef
         (run [Mount bare_env (Resolved 1); Start bare_env Rejected Returns]
              initialState).1).
Proof.
  split; [reflexivity|].
  apply (listening_implies_client
           [Mount bare_env (Resolved 1); Start bare_env Rejected Returns]).
  reflexivity.
Defined.

(** X16.  With permission granted, a client handle in place and the SDK
    returning, the button toggles SessionState: a click while idle calls
    the client's [start] and nothing else, a click while listening calls
    the client's [stop] and nothing else. *)
Theorem button_toggles_session env media st (client : MillisClient) :
  permissionGranted st = true →
  msClientRef st = Some client →
  isListening (final (button_onClick env media Returns st))
    = negb (isListening st)
  ∧ effects (button_onClick env media Returns st)
    = [if isListening st then ClientStop else ClientStart (start_config env)]
  ∧ completion (button_onClick env media Returns st) = Normal ().
Proof.
  intros Hpg Href. rewrite button_onClick_outcome.
  destruct (isListening st).
  - rewrite stopVoiceAgent_outcome, Href. repeat split.
  - rewrite startVoiceAgent_outcome, startSession_outcome, Hpg, Href.
    repeat split.
Qed.

Lemma button_toggles_session_witness :
  permissionGranted mounted_page = true
  ∧ msClientRef mounted_page = Some (mounted_client bare_env)
  ∧ isListening mounted_page = false
  ∧ isListening
      (final (button_onClick bare_env Rejected Returns mounted_page)) = true.
Proof.
  split; [reflexivity|].
  split; [reflexivity|].
  split; [reflexivity|].
  destruct (button_toggles_session bare_env Rejected mounted_page
              (mounted_client bare_env) eq_refl eq_refl) as (Htoggle & _ & _).
  rewrite Htoggle. reflexivity.
Defined.

(** X17.  If the SDK's [stop] throws, [stopVoiceAgent] throws too, after
    the call and before [setIsListening(false)]: the state is left
    untouched, so a listening session still shows as listening. *)
Theorem stop_failure_keeps_listening st (client : MillisClient) :
  msClientRef st = Some client →
  stopVoiceAgent Throws st =
  {| completion := Thrown; final := st; effects := [ClientStop] |}.
Proof.
  intros Href. rewrite stopVoiceAgent_outcome, Href. reflexivity.
Qed.

Lemma stop_failure_keeps_listening_witness :
  msClientRef listening_page = Some (mounted_client bare_env)
  ∧ completion (stopVoiceAgent Throws listening_page) = Thrown
  ∧ isListening (final (stopVoiceAgent Throws listening_page)) = true.
Proof.
  split; [reflexivity|].
  rewrite (stop_failure_keeps_listening listening_page
             (mounted_client bare_env) eq_refl).
  split; reflexivity.
Defined.

End SessionState.

(** ** The permission probe *)

Section PermissionProbe.

Implicit Types (st : State) (media : MediaResult).

(** X18.  The permission probe never throws.  It asks for the microphone
    once; when a stream comes back it stops every track of that stream,
    each once and in order, and when the request is rejected it makes no
    further call. *)
Theorem probe_releases_every_track media st :
  completion (checkMicrophonePermission media st) = Normal ()
  ∧ effects (checkMicrophonePermission media st) =
    match media with
    | Resolved tracks => GetUserMedia :: (TrackStop <$> seq 0 tracks)
    | Rejected => [GetUserMedia]
    end.
Proof.
  split; [apply checkMicrophonePermission_completion|].
  rewrite checkMicrophonePermission_calls. by destruct media.
Qed.

(** X19.  Probing is idempotent: a second probe with the same answer
    leaves the state exactly as the first one did. *)
Theorem probe_is_idempotent media st :
  final (checkMicrophonePermission media
           (final (checkMicrophonePermission media st)))
  = final (checkMicrophonePermission media st).
Proof.
  rewrite !checkMicrophonePermission_final. by destruct media.
Qed.

End PermissionProbe.

(** ** The text form *)

Lemma trimStart_nil (s : jsstring) :
  trimStart s = [] ↔ forallb isWhiteSpace s = true.
Proof.
  induction s as [|c s IH]; [done|].
  cbn [trimStart forallb]. destruct (isWhiteSpace c); [exact IH|].
  split; discriminate.
Qed.

Lemma trimStart_head (s : jsstring) (c : code_unit) (t : jsstring) :
  trimStart s = c :: t → isWhiteSpace c = false.
Proof.
  induction s as [|c' s IH]; [discriminate|].
  cbn [trimStart]. destruct (isWhiteSpace c') eqn:Hc'; [exact IH|].
  by intros [= -> _].
Qed.

Lemma forallb_reverse (s : jsstring) :
  forallb isWhiteSpace (reverse s) = forallb isWhiteSpace s.
Proof.
  induction s as [|c s IH]; [reflexivity|].
  rewrite reverse_cons, forallb_app, IH. cbn [forallb].
  rewrite andb_true_r. apply andb_comm.
Qed.

Lemma trimEnd_nil (s : jsstring) :
  trimEnd s = [] ↔ forallb isWhiteSpace s = true.
Proof.
  unfold trimEnd. rewrite <- forallb_reverse, <- trimStart_nil.
  split; [|by intros ->].
  intros Hrev. apply (f_equal reverse) in Hrev.
  by rewrite reverse_involutive in Hrev.
Qed.

(** The trimmed string is non-empty exactly when some code unit is not
    white space. *)
Lemma truthy_trim (s : jsstring) :
  truthy (trim s) = negb (forallb isWhiteSpace s).
Proof.
  destruct (forallb isWhiteSpace s) eqn:Hall; cbn [negb].
  - apply trimStart_nil in Hall. unfold trim. by rewrite Hall.
  - destruct (trim s) eqn:Htrim; [|reflexivity].
    unfold trim in Htrim. apply trimEnd_nil in Htrim.
    destruct (trimStart s) as [|c t] eqn:Hstart.
    + apply trimStart_nil in Hstart. congruence.
    + apply trimStart_head in Hstart. cbn [forallb] in Htrim.
      by rewrite Hstart in Htrim.
Qed.

Lemma handleSubmit_final (st : State) :
  final (handleSubmit st) =
  if truthy (trim (inputText st))
  then {| inputText := [];
          isListening := isListening st;
          transcript := transcript st;
          messages :=
            messages st ++ [{| type := user; text := inputText st |}];
          msClientRef := msClientRef st;
          permissionGranted := permissionGranted st;
          connectionError := connectionError st;
          effectCleanup := effectCleanup st |}
  else st.
Proof.
  unfold handleSubmit. rewrite emit_bind. cbn [final].
  rewrite read_bind. destruct (truthy (trim (inputText st))); reflexivity.
Qed.

Lemma handleSubmit_of_render_final (inputText : jsstring) (st : State) :
  final (handleSubmit_of_render inputText st) =
  if truthy (trim inputText)
  then {| VoiceAgent.inputText := [];
          isListening := isListening st;
          transcript := transcript st;
          messages :=
            messages st ++ [{| type := user; text := inputText |}];
          msClientRef := msClientRef st;
          permissionGranted := permissionGranted st;
          connectionError := connectionError st;
          effectCleanup := effectCleanup st |}
  else st.
Proof.
  unfold handleSubmit_of_render. rewrite emit_bind. cbn [final].
  destruct (truthy (trim inputText)); reflexivity.
Qed.

(** The handler of the current render is [handleSubmit]. *)
Lemma handleSubmit_of_current_render (st : State) :
  handleSubmit_of_render (inputText st) st = handleSubmit st.
Proof.
  unfold handleSubmit, handleSubmit_of_render.
  rewrite !emit_bind, read_bind. reflexivity.
Qed.

Section TextForm.

Implicit Types (st : State).

(** X20.  The Send button is disabled exactly when submitting would
    change nothing. *)
Theorem send_disabled_iff_submit_noop st :
  sendDisabled st = true ↔ final (handleSubmit st) = st.
Proof.
  unfold sendDisabled. rewrite handleSubmit_final.
  destruct (truthy (trim (inputText st))); cbn [negb].
  - split; [discriminate|]. intros Hsame.
    apply (f_equal messages) in Hsame. cbn [messages] in Hsame.
    rewrite <- (app_nil_r (messages st)) in Hsame at 2.
    by apply app_inv_head in Hsame.
  - done.
Qed.

(** X21.  What a second submit does depends on the render its handler
    comes from.  Once the component has re-rendered after a submit, the
    Send button is disabled and the new handler leaves the state as the
    first submit did.  The handler of one and the same render, called
    twice, sees the same [inputText] both times and appends the Message
    twice. *)
Theorem second_submit_depends_on_render st :
  sendDisabled (final (handleSubmit st)) = true
  ∧ final (handleSubmit (final (handleSubmit st))) = final (handleSubmit st)
  ∧ messages
      (final (handleSubmit_of_render (inputText st)
                (final (handleSubmit_of_render (inputText st) st))))
    = (if truthy (trim (inputText st))
       then messages st ++ [{| type := user; text := inputText st |};
                            {| type := user; text := inputText st |}]
       else messages st).
Proof.
  unfold sendDisabled. rewrite !handleSubmit_final.
  rewrite !handleSubmit_of_render_final.
  destruct (truthy (trim (inputText st))) eqn:Htrim.
  - cbn [inputText messages]. repeat split.
    symmetry. apply (app_assoc (messages st) [_] [_]).
  - rewrite Htrim. repeat split.
Qed.

(** X22.  A submit appends a Message exactly when the input contains a
    code unit that is not white space, and the Message then carries the
    input as typed, surrounding white space included. *)
Theorem submit_iff_non_whitespace st :
  messages (final (handleSubmit st)) =
  if forallb isWhiteSpace (inputText st)
  then messages st
  else messages st ++ [{| type := user; text := inputText st |}].
Proof.
  rewrite handleSubmit_final, truthy_trim.
  by destruct (forallb isWhiteSpace (inputText st)).
Qed.

End TextForm.

(** ** The error banner *)

Lemma step_keeps_error_displayable (a : Action) :
  preserves (keeps error_is_displayable) (step a).
Proof.
  destruct a as [env media|sdk|env media sdk|sdk|env media sdk|value| |ev];
    try destruct ev; preserves_steps;
    unfold keeps, error_is_displayable; project;
    intros Hinv message Hmessage;
    first
      [ exact (Hinv message Hmessage)
      | discriminate Hmessage
      | injection Hmessage as <-;
        first [apply close_message_nonempty | apply lit_nonempty] ].
Qed.

Section ErrorBanner.

(** X23.  Whatever happens to the component after its initial state, a
    ConnectionError that is set is a non-empty string, so the banner,
    which the render shows when ConnectionError is truthy, is shown
    whenever ConnectionError is set. *)
Theorem connection_errors_are_never_empty (acts : list Action)
    (message : jsstring) :
  connectionError (run acts initialState).1 = Some message →
  message ≠ [] ∧ showsErrorBanner (run acts initialState).1 = true.
Proof.
  intros Hmessage.
  assert (error_is_displayable (run acts initialState).1) as Hinv.
  { apply (run_preserves (keeps error_is_displayable) (λ _, true) acts).
    - intros a _. apply step_keeps_error_displayable.
    - by apply forallb_forall.
    - intros ? [=]. }
  split; [by apply Hinv|].
  unfold showsErrorBanner. rewrite Hmessage.
  apply truthy_spec. by apply Hinv.
Qed.

Lemma connection_errors_are_never_empty_witness :
  connectionError
    (run [Mount bare_env (Resolved 1); Start bare_env Rejected Returns;
          Fire (Close {| code := 1006; reason := [] |})]
         initialState).1
  = Some (lit "Connection closed unexpectedly (code: 1006). Reason: Unknown")
  ∧ showsErrorBanner
      (run [Mount bare_env (Resolved 1); Start bare_env Rejected Returns;
            Fire (Close {| code := 1006; reason := [] |})]
           initialState).1 = true.
Proof.
  split; [reflexivity|].
  apply (connection_errors_are_never_empty
           [Mount bare_env (Resolved 1); Start bare_env Rejected Returns;
            Fire (Close {| code := 1006; reason := [] |})]
           (lit "Connection closed unexpectedly (code: 1006). Reason: Unknown")).
  reflexivity.
Defined.

End ErrorBanner.

(** ** Two round trips *)

Section RoundTrips.

Implicit Types (st : State) (env : ProcessEnv) (media : MediaResult).

(** X24.  With permission granted, a client handle in place and the SDK's
    [start] returning, a start attempt clears ConnectionError, calls the
    client's [start] once with the agent id, the API key and the proxy
    flag of the environment (the flag is set only by the exact string
    "true") and with [include_metadata_in_prompt] set, and sets
    SessionState to listening; nothing else changes. *)
Theorem start_success_clears_error env media st (client : MillisClient) :
  permissionGranted st = true →
  msClientRef st = Some client →
  startVoiceAgent env media Returns st =
  {| completion := Normal ();
     final :=
       {| inputText := inputText st; isListening := true;
          transcript := transcript st; messages := messages st;
          msClientRef := msClientRef st;
          permissionGranted := permissionGranted st;
          connectionError := None;
          effectCleanup := effectCleanup st |};
     effects :=
       [ClientStart
          {| agent_id := NEXT_PUBLIC_MILLIS_AGENT_ID env;
             apiKey := NEXT_PUBLIC_MILLIS_API_KEY env;
             useOpenAIProxy :=
               bool_decide
                 (NEXT_PUBLIC_USE_OPENAI_PROXY env = Some (lit "true"));
             include_metadata_in_prompt := true |}] |}.
Proof.
  intros Hpg Href.
  rewrite startVoiceAgent_outcome, startSession_outcome, Hpg, Href.
  reflexivity.
Qed.

Lemma start_success_clears_error_witness :
  permissionGranted
    (final (startVoiceAgent bare_env (Resolved 1) Returns
              (run [Mount bare_env Rejected] initialState).1)) = true
  ∧ connectionError
      (final (startVoiceAgent bare_env (Resolved 1) Returns
                (run [Mount bare_env Rejected] initialState).1))
    = Some microphone_advisory
  ∧ connectionError
      (final
         (startVoiceAgent bare_env Rejected Returns
            (final (startVoiceAgent bare_env (Resolved 1) Returns
                      (run [Mount bare_env Rejected] initialState).1))))
    = None
  ∧ isListening
      (final
         (startVoiceAgent bare_env Rejected Returns
            (final (startVoiceAgent bare_env (Resolved 1) Returns
                      (run [Mount bare_env Rejected] initialState).1))))
    = true.
Proof.
  split; [reflexivity|].
  split; [reflexivity|].
  rewrite (start_success_clears_error bare_env Rejected
             (final (startVoiceAgent bare_env (Resolved 1) Returns
                       (run [Mount bare_env Rejected] initialState).1))
             (mounted_client bare_env) eq_refl eq_refl).
  split; reflexivity.
Defined.

(** X25.  Typing a text and submitting it: when the text has a code unit
    that is not white space, it is appended as a user Message exactly as
    typed and the field is emptied; when it is blank, the Message list is
    unchanged and the field keeps the text. *)
Theorem typed_text_is_echoed (value : jsstring) st :
  messages (run [ChangeInput value; Submit] st).1 =
    (if forallb isWhiteSpace value
     then messages st
     else messages st ++ [{| type := user; text := value |}])
  ∧ inputText (run [ChangeInput value; Submit] st).1 =
    (if forallb isWhiteSpace value then value else []).
Proof.
  cbn [run step fst]. unfold setInputText at 1 2, update. cbn [final].
  rewrite handleSubmit_final. cbn [inputText].
  rewrite truthy_trim.
  destruct (forallb isWhiteSpace value); split; reflexivity.
Qed.

End RoundTrips.
